(** * mocha-remote client: a shallow embedding of [MochaRemoteClient]

    The client class of mocha-remote (the session endpoint that runs inside
    the remote runtime) is embedded as functions over an explicit world:
    the fields of the client object ([this]) and the collaborators it
    talks to (WebSocket objects, the timer queue, Mocha instances, runners,
    the JavaScript heap holding event arguments), together with a
    chronological trace of what the client does to a collaborator: every
    call it makes on one, and its write to the reporter field of a Mocha
    instance.

    Methods run in a state-and-exception monad: a JavaScript [throw] keeps
    the mutations made before it, so an outcome always comes with a world. *)

From stdpp Require Import base option list strings.
From Stdlib Require Import ZArith Lia.

Local Open Scope string_scope.
Local Open Scope Z_scope.
Local Open Scope list_scope.

(** ** Handles *)

(** Objects living outside the client are referred to by their index in
    the store that holds them; allocation appends to the store. *)
Abbreviation sock := nat (only parsing).
Abbreviation mref := nat (only parsing).
Abbreviation rref := nat (only parsing).
Abbreviation addr := nat (only parsing).

(** A timer handle as [setTimeout] returns it; the client only ever tests it
    for truthiness, and the platform hands out handles that are truthy (a
    positive integer in browsers, an object in Node). *)
Abbreviation timer_id := positive (only parsing).

(** A function supplied by the user of the client (a configured callback,
    the optional argument of [connect]); the embedding does not look inside
    it and records each invocation in the trace. *)
Inductive callback := UserFn (label : nat).

#[global] Instance callback_eq_dec : EqDecision callback.
Proof. solve_decision. Defined.

(** ** Exceptions and outcomes *)

Inductive exn :=
| Error (message : string)
| TypeError (message : string)
| SyntaxError (message : string).

Inductive outcome (A : Type) :=
| Ok (a : A)
| Throw (e : exn).
Arguments Ok {A} a.
Arguments Throw {A} e.

(** ** JSON values: what [JSON.parse] returns for an inbound frame *)

#[warnings="-register-all"]
Inductive json :=
| JNull
| JBool (b : bool)
| JNumber (z : Z)
| JString (s : string)
| JArray (items : list json)
| JObject (members : list (string * json)).

(** ** JavaScript values: the arguments of outbound events *)

Inductive value :=
| VUndefined
| VNull
| VBool (b : bool)
| VNumber (z : Z)
| VString (s : string)
| VSymbol (n : nat)
| VRef (a : addr).

(** Own property keys are strings or symbols. *)
Inductive prop_key :=
| KString (s : string)
| KSymbol (n : nat).

#[global] Instance prop_key_eq_dec : EqDecision prop_key.
Proof. solve_decision. Defined.

Record property := Property {
  p_value : value;        (* what reading the property yields *)
  p_enumerable : bool
}.

(** Where an object stands with respect to [Error.prototype]; this is all
    [instanceof Error] looks at. *)
Inductive proto_class :=
| IsErrorPrototype   (* the object is Error.prototype itself *)
| InheritsError      (* Error.prototype is on its prototype chain *)
| OtherObject.       (* anything else, e.g. an object literal *)

Record object := Object {
  o_class : proto_class;
  o_props : list (prop_key * property)   (* own properties, in key order *)
}.

(** ** The WebSocket collaborator *)

Inductive ready_state := CONNECTING | OPEN | CLOSING | CLOSED.

#[global] Instance ready_state_eq_dec : EqDecision ready_state.
Proof. solve_decision. Defined.

(** The function values the client registers as listeners. [onClose],
    [onError] and [onMessage] are instance fields (one function object per
    client); the open listener is an arrow function created by each call of
    [connect], closing over its optional argument. *)
Inductive listener :=
| onClose_fn
| onError_fn
| onMessage_fn
| open_arrow (fn : option callback).

#[global] Instance listener_eq_dec : EqDecision listener.
Proof. solve_decision. Defined.

Record socket := Socket {
  s_url : string;
  s_protocol : string;
  s_readyState : ready_state;
  s_listeners : list (string * listener)   (* (event type, listener) *)
}.

(** ** Timers *)

(** The only function the client hands to [setTimeout] is
    [() => { this.connect(); }]. *)
Inductive timer_fn := reconnect_arrow.

Record timer := Timer {
  t_id : timer_id;
  t_fn : timer_fn;
  t_delay : Z      (* milliseconds, as passed to setTimeout *)
}.

(** ** The Mocha collaborator *)

(** What the [run] property of an instance resolves to. *)
Inductive run_entry :=
| Mocha_prototype_run    (* the framework's own run *)
| instrumented_run.      (* the arrow installed by instrument(), which throws *)

Inductive reporter_entry :=
| Mocha_prototype_reporter
| instrumented_reporter. (* the arrow installed by instrument(), which warns *)

(** The reporter class stored in the private [_reporter] field. *)
Inductive reporter_class :=
| default_reporter
| remote_reporter.       (* the class createReporter() returns *)

Record mocha := Mocha {
  m_run : run_entry;
  m_originalRun : option run_entry;   (* undefined until instrumented *)
  m_reporter : reporter_entry;
  m__reporter : reporter_class
}.

(** A runner and the listeners attached to it: (event name, the event name
    bound into [client.send.bind(client, eventName)]). *)
Record runner := Runner {
  r_mocha : mref;
  r_listeners : list (string * string)
}.

(** ** Configuration *)

Inductive factory :=
| default_createMocha               (* config => new Mocha(config.mochaOptions) *)
| user_createMocha (f : callback).

Record IMochaRemoteClientConfig := Config {
  autoConnect : bool;
  autoRetry : bool;
  retryDelay : Z;
  url : string;
  id : option string;
  onConnected : option callback;
  onDisconnected : option callback;
  onInstrumented : option callback;
  onRunning : option callback;
  createMocha : factory;
  mochaOptions : list (string * json)
}.

(** [Partial<IMochaRemoteClientConfig>]: every field may be absent. *)
Record PartialConfig := Partial {
  p_autoConnect : option bool;
  p_autoRetry : option bool;
  p_retryDelay : option Z;
  p_url : option string;
  p_id : option string;
  p_onConnected : option callback;
  p_onDisconnected : option callback;
  p_onInstrumented : option callback;
  p_onRunning : option callback;
  p_createMocha : option factory;
  p_mochaOptions : option (list (string * json))
}.

Definition DEFAULT_CONFIG : IMochaRemoteClientConfig := {|
  autoConnect := true;
  autoRetry := true;
  createMocha := default_createMocha;
  id := Some "default";
  mochaOptions := [];
  retryDelay := 500;
  url := "ws://localhost:8090";
  onConnected := None;
  onDisconnected := None;
  onInstrumented := None;
  onRunning := None
|}.

(** [{ ...base, ...over }]: a field present in [over] wins. *)
Definition spread (base : IMochaRemoteClientConfig) (over : PartialConfig)
  : IMochaRemoteClientConfig := {|
  autoConnect := default (autoConnect base) (p_autoConnect over);
  autoRetry := default (autoRetry base) (p_autoRetry over);
  retryDelay := default (retryDelay base) (p_retryDelay over);
  url := default (url base) (p_url over);
  id := match p_id over with Some i => Some i | None => id base end;
  onConnected :=
    match p_onConnected over with Some f => Some f | None => onConnected base end;
  onDisconnected :=
    match p_onDisconnected over with Some f => Some f | None => onDisconnected base end;
  onInstrumented :=
    match p_onInstrumented over with Some f => Some f | None => onInstrumented base end;
  onRunning :=
    match p_onRunning over with Some f => Some f | None => onRunning base end;
  createMocha := default (createMocha base) (p_createMocha over);
  mochaOptions := default (mochaOptions base) (p_mochaOptions over)
|}.

Definition MOCHA_EVENT_NAMES : list string :=
  [ "start"; "end"; "suite"; "suite end"; "test"; "test end";
    "hook"; "hook end"; "pass"; "fail"; "pending" ].

(** ** The trace *)

(** Lines written through [debug]; a log side channel. *)
Inductive debug_line :=
| Connecting_to (url : string)
| Connected_to (url : string)
| Disconnecting_from_server
| Sending_message (eventName : string)
| Connection_closed (reason : string) (code : Z)
| Reconnecting_in (delay : Z)
| WebSocket_error (message : string)
| Received_message (eventName : option json).

Inductive event :=
| Debug (line : debug_line)
| WebSocket_new (h : sock) (url protocol : string)
| WebSocket_addEventListener (h : sock) (type : string) (l : listener)
| WebSocket_removeEventListener (h : sock) (type : string) (l : listener)
| WebSocket_close (h : sock)
| WebSocket_send (h : sock) (data : string)
| Called_setTimeout (t : timer_id) (f : timer_fn) (delay : Z)
| Called_clearTimeout (t : timer_id)
| Call_onConnected (f : callback) (target : sock)
| Call_connect_fn (f : callback)
| Call_onDisconnected (f : callback) (code : Z) (reason : string)
| Call_onInstrumented (f : callback) (m : mref)
| Call_onRunning (f : callback) (r : rref)
| Mocha_new (options : list (string * json)) (m : mref)
| Call_createMocha (f : callback) (m : mref)
| Set_reporter (m : mref) (cls : reporter_class)
| Mocha_run (m : mref) (r : rref)          (* the framework's run executed *)
| console_warn (message : string)
| Uncaught (e : exn).                      (* an exception left a listener *)

(** The notifications of the configuration surface: the calls of
    user-supplied functions. *)
Definition is_notification (e : event) : bool :=
  match e with
  | Call_onConnected _ _ | Call_connect_fn _ | Call_onDisconnected _ _ _
  | Call_onInstrumented _ _ | Call_onRunning _ _ => true
  | _ => false
  end.

Definition notifications (tr : list event) : list event :=
  List.filter is_notification tr.

(** ** The world *)

(** The private fields of a [MochaRemoteClient]. *)
Record client := Client {
  config : IMochaRemoteClientConfig;
  ws : option sock;
  instrumentedMocha : option mref;
  retryTimeout : option timer_id
}.

Record env := Env {
  e_WebSocket_defined : bool;   (* typeof WebSocket !== "undefined" *)
  e_sockets : list socket;
  e_timers : list timer;        (* pending timers *)
  e_next_timer : timer_id;
  e_mochas : list mocha;
  e_runners : list runner;
  e_heap : list object;
  e_trace : list event
}.

Record world := World {
  w_this : client;
  w_env : env
}.

(** ** The method monad *)

Definition M (A : Type) : Type := world -> outcome A * world.

Definition ret {A} (a : A) : M A := fun w => (Ok a, w).

Definition bind {A B} (m : M A) (k : A -> M B) : M B :=
  fun w =>
    match m w with
    | (Ok a, w') => k a w'
    | (Throw e, w') => (Throw e, w')
    end.

Definition throw {A} (e : exn) : M A := fun w => (Throw e, w).

Notation "'do' x <- m ; k" := (bind m (fun x => k))
  (at level 10, x name, m at level 100, k at level 200).
Notation "m ;; k" := (bind m (fun _ => k))
  (at level 100, k at level 200, right associativity).

Definition when (b : bool) (m : M unit) : M unit := if b then m else ret tt.

(** Reading and writing the fields of [this]. *)
Definition this : M client := fun w => (Ok (w_this w), w).

Definition set_this (f : client -> client) : M unit :=
  fun w => (Ok tt, {| w_this := f (w_this w); w_env := w_env w |}).

Definition set_ws (x : option sock) : M unit :=
  set_this (fun c => {| config := config c; ws := x;
                        instrumentedMocha := instrumentedMocha c;
                        retryTimeout := retryTimeout c |}).

Definition set_instrumentedMocha (x : option mref) : M unit :=
  set_this (fun c => {| config := config c; ws := ws c;
                        instrumentedMocha := x;
                        retryTimeout := retryTimeout c |}).

Definition set_retryTimeout (x : option timer_id) : M unit :=
  set_this (fun c => {| config := config c; ws := ws c;
                        instrumentedMocha := instrumentedMocha c;
                        retryTimeout := x |}).

(** Reading and writing the collaborators. *)
Definition environment : M env := fun w => (Ok (w_env w), w).

Definition set_env (f : env -> env) : M unit :=
  fun w => (Ok tt, {| w_this := w_this w; w_env := f (w_env w) |}).

Definition with_sockets (x : list socket) (e : env) : env :=
  {| e_WebSocket_defined := e_WebSocket_defined e; e_sockets := x;
     e_timers := e_timers e; e_next_timer := e_next_timer e;
     e_mochas := e_mochas e; e_runners := e_runners e;
     e_heap := e_heap e; e_trace := e_trace e |}.

Definition with_timers (x : list timer) (n : timer_id) (e : env) : env :=
  {| e_WebSocket_defined := e_WebSocket_defined e; e_sockets := e_sockets e;
     e_timers := x; e_next_timer := n;
     e_mochas := e_mochas e; e_runners := e_runners e;
     e_heap := e_heap e; e_trace := e_trace e |}.

Definition with_mochas (x : list mocha) (e : env) : env :=
  {| e_WebSocket_defined := e_WebSocket_defined e; e_sockets := e_sockets e;
     e_timers := e_timers e; e_next_timer := e_next_timer e;
     e_mochas := x; e_runners := e_runners e;
     e_heap := e_heap e; e_trace := e_trace e |}.

Definition with_runners (x : list runner) (e : env) : env :=
  {| e_WebSocket_defined := e_WebSocket_defined e; e_sockets := e_sockets e;
     e_timers := e_timers e; e_next_timer := e_next_timer e;
     e_mochas := e_mochas e; e_runners := x;
     e_heap := e_heap e; e_trace := e_trace e |}.

Definition with_heap (x : list object) (e : env) : env :=
  {| e_WebSocket_defined := e_WebSocket_defined e; e_sockets := e_sockets e;
     e_timers := e_timers e; e_next_timer := e_next_timer e;
     e_mochas := e_mochas e; e_runners := e_runners e;
     e_heap := x; e_trace := e_trace e |}.

Definition with_trace (x : list event) (e : env) : env :=
  {| e_WebSocket_defined := e_WebSocket_defined e; e_sockets := e_sockets e;
     e_timers := e_timers e; e_next_timer := e_next_timer e;
     e_mochas := e_mochas e; e_runners := e_runners e;
     e_heap := e_heap e; e_trace := x |}.

(** Append one event to the trace. *)
Definition emit (ev : event) : M unit :=
  set_env (fun e => with_trace (e_trace e ++ [ev]) e).

Definition debug (line : debug_line) : M unit := emit (Debug line).

(** Invoke an optional user function: [if (f) { f(...) }]. *)
Definition notify (f : option callback) (ev : callback -> event) : M unit :=
  match f with
  | Some g => emit (ev g)
  | None => ret tt
  end.

(** ** The WebSocket interface, as the client uses it *)

(** [new WebSocket(url, protocol)]: a new socket, connecting. *)
Definition new_WebSocket (u protocol : string) : M sock :=
  do e <- environment;
  let h := length (e_sockets e) in
  set_env (with_sockets
             (e_sockets e ++
                [{| s_url := u; s_protocol := protocol;
                    s_readyState := CONNECTING; s_listeners := [] |}]));;
  emit (WebSocket_new h u protocol);;
  ret h.

Definition with_listeners (ls : list (string * listener)) (s : socket) : socket :=
  {| s_url := s_url s; s_protocol := s_protocol s;
     s_readyState := s_readyState s; s_listeners := ls |}.

Definition with_readyState (rs : ready_state) (s : socket) : socket :=
  {| s_url := s_url s; s_protocol := s_protocol s;
     s_readyState := rs; s_listeners := s_listeners s |}.

Definition update_socket (h : sock) (f : socket -> socket) : M unit :=
  set_env (fun e => with_sockets (alter f h (e_sockets e)) e).

(** A listener already registered for the type is not registered twice. *)
Definition add_listener (type : string) (l : listener)
    (ls : list (string * listener)) : list (string * listener) :=
  if bool_decide ((type, l) ∈ ls) then ls else ls ++ [(type, l)].

Definition remove_listener (type : string) (l : listener)
    (ls : list (string * listener)) : list (string * listener) :=
  List.filter (fun x => negb (bool_decide (x = (type, l)))) ls.

Definition addEventListener (h : sock) (type : string) (l : listener) : M unit :=
  update_socket h (fun s => with_listeners (add_listener type l (s_listeners s)) s);;
  emit (WebSocket_addEventListener h type l).

Definition removeEventListener (h : sock) (type : string) (l : listener) : M unit :=
  update_socket h (fun s => with_listeners (remove_listener type l (s_listeners s)) s);;
  emit (WebSocket_removeEventListener h type l).

(** [ws.close()]: a socket that is connecting or open starts closing; the
    close event comes later, from the transport. *)
Definition closing (s : socket) : socket :=
  match s_readyState s with
  | CONNECTING | OPEN => with_readyState CLOSING s
  | CLOSING | CLOSED => s
  end.

Definition ws_close (h : sock) : M unit :=
  update_socket h closing;;
  emit (WebSocket_close h).

Definition ws_send (h : sock) (data : string) : M unit :=
  emit (WebSocket_send h data).

Definition readyState (h : sock) : M (option ready_state) :=
  do e <- environment;
  ret (s_readyState <$> e_sockets e !! h).

(** ** Timers, as the client uses them *)

Definition setTimeout (f : timer_fn) (delay : Z) : M timer_id :=
  do e <- environment;
  let t := e_next_timer e in
  set_env (with_timers
             (e_timers e ++ [{| t_id := t; t_fn := f; t_delay := delay |}])
             (Pos.succ t));;
  emit (Called_setTimeout t f delay);;
  ret t.

Definition cancel (t : timer_id) (ts : list timer) : list timer :=
  List.filter (fun x => negb (Pos.eqb (t_id x) t)) ts.

Definition clearTimeout (t : timer_id) : M unit :=
  set_env (fun e => with_timers (cancel t (e_timers e)) (e_next_timer e) e);;
  emit (Called_clearTimeout t).

(** ** The Mocha interface, as the client uses it *)

Definition fresh_mocha : mocha :=
  {| m_run := Mocha_prototype_run; m_originalRun := None;
     m_reporter := Mocha_prototype_reporter; m__reporter := default_reporter |}.

Definition alloc_mocha : M mref :=
  do e <- environment;
  let m := length (e_mochas e) in
  set_env (with_mochas (e_mochas e ++ [fresh_mocha]));;
  ret m.

(** [this.config.createMocha(this.config)]. The default factory is
    [config => new Mocha(config.mochaOptions)]; a factory of the user is
    called "when the client needs a new Mocha instance" and is taken to
    build one. *)
Definition call_createMocha (cfg : IMochaRemoteClientConfig) : M mref :=
  do m <- alloc_mocha;
  match createMocha cfg with
  | default_createMocha => emit (Mocha_new (mochaOptions cfg) m)
  | user_createMocha f => emit (Call_createMocha f m)
  end;;
  ret m.

Definition update_mocha (m : mref) (f : mocha -> mocha) : M unit :=
  set_env (fun e => with_mochas (alter f m (e_mochas e)) e).

Definition guard_message : string :=
  "This Mocha instance is instrumented by mocha-remote-client, use the server to run tests".

Definition reporter_warning : string :=
  "This Mocha instance is instrumented by mocha-remote-client, setting a reporter has no effect".

(** The constructor of the class [createReporter] returns: after the base
    constructor, one listener per lifecycle event name, each
    [client.send.bind(client, eventName)]. *)
Definition createReporter : reporter_class := remote_reporter.

Definition with_r_listeners (ls : list (string * string)) (r : runner) : runner :=
  {| r_mocha := r_mocha r; r_listeners := ls |}.

Definition runner_addListener (r : rref) (eventName bound : string) : M unit :=
  set_env (fun e =>
    with_runners
      (alter (fun x => with_r_listeners (r_listeners x ++ [(eventName, bound)]) x)
             r (e_runners e)) e).

Fixpoint forEach {A} (xs : list A) (f : A -> M unit) : M unit :=
  match xs with
  | [] => ret tt
  | x :: rest => f x;; forEach rest f
  end.

Definition construct_reporter (cls : reporter_class) (r : rref) : M unit :=
  match cls with
  | default_reporter => ret tt
  | remote_reporter =>
      forEach MOCHA_EVENT_NAMES (fun eventName => runner_addListener r eventName eventName)
  end.

(** The framework's own [run]: it creates a runner, instantiates the class
    held in [_reporter] on it and starts the run, returning the runner. *)
Definition Mocha_run_original (m : mref) : M rref :=
  do e <- environment;
  let cls := match e_mochas e !! m with
             | Some o => m__reporter o
             | None => default_reporter
             end in
  let r := length (e_runners e) in
  set_env (with_runners (e_runners e ++ [{| r_mocha := m; r_listeners := [] |}]));;
  construct_reporter cls r;;
  emit (Mocha_run m r);;
  ret r.

(** Calling a function value found in a [run] or [originalRun] property,
    with the instance as receiver. *)
Definition call_run_entry (f : run_entry) (m : mref) : M rref :=
  match f with
  | Mocha_prototype_run => Mocha_run_original m
  | instrumented_run => throw (Error guard_message)
  end.

(** [mocha.run()], called directly on an instance. *)
Definition direct_run (m : mref) : M rref :=
  do e <- environment;
  match e_mochas e !! m with
  | Some o => call_run_entry (m_run o) m
  | None => throw (TypeError "mocha.run is not a function")
  end.

(** [mocha.reporter(...)], called directly on an instance. *)
Definition direct_reporter (m : mref) : M mref :=
  do e <- environment;
  match m_reporter <$> e_mochas e !! m with
  | Some instrumented_reporter => emit (console_warn reporter_warning);; ret m
  | _ => ret m
  end.

(** ** The JavaScript heap, as [prepareArgs] uses it *)

Definition alloc_object (o : object) : M addr :=
  do e <- environment;
  let a := length (e_heap e) in
  set_env (with_heap (e_heap e ++ [o]));;
  ret a.

Definition class_of (h : list object) (v : value) : option proto_class :=
  match v with
  | VRef a => o_class <$> h !! a
  | _ => None
  end.

(** [v instanceof Error]. *)
Definition instanceof_Error (h : list object) (v : value) : bool :=
  match class_of h v with
  | Some InheritsError => true
  | _ => false
  end.

Definition own_props (h : list object) (v : value) : list (prop_key * property) :=
  match v with
  | VRef a => match h !! a with
              | Some o => o_props o
              | None => []
              end
  | _ => []
  end.

(** [Object.getOwnPropertyNames]: the own string keys, enumerable or not;
    symbol keys are not listed. *)
Fixpoint getOwnPropertyNames (ps : list (prop_key * property)) : list string :=
  match ps with
  | [] => []
  | (KString s, _) :: rest => s :: getOwnPropertyNames rest
  | (KSymbol _, _) :: rest => getOwnPropertyNames rest
  end.

Definition key_eqb (k1 k2 : prop_key) : bool :=
  match k1, k2 with
  | KString a, KString b => String.eqb a b
  | KSymbol a, KSymbol b => Nat.eqb a b
  | _, _ => false
  end.

Fixpoint lookup_prop (k : prop_key) (ps : list (prop_key * property)) : option property :=
  match ps with
  | [] => None
  | (k', p) :: rest => if key_eqb k' k then Some p else lookup_prop k rest
  end.

(** [arg[key]] for an own key. *)
Definition get_prop (h : list object) (v : value) (key : string) : value :=
  match lookup_prop (KString key) (own_props h v) with
  | Some p => p_value p
  | None => VUndefined
  end.

(** Defining a data property by assignment: an existing key keeps its
    place, a new one goes last; the property is enumerable. *)
Fixpoint define_prop (k : prop_key) (v : value) (ps : list (prop_key * property))
  : list (prop_key * property) :=
  match ps with
  | [] => [(k, {| p_value := v; p_enumerable := true |})]
  | (k', p) :: rest =>
      if key_eqb k' k then (k', {| p_value := v; p_enumerable := true |}) :: rest
      else (k', p) :: define_prop k v rest
  end.

(** What the inherited [__proto__] setter does to the class of the
    receiver: an object or null becomes its prototype, any other value is
    ignored. *)
Definition reparented (h : list object) (v : value) (old : proto_class) : proto_class :=
  match v with
  | VNull => OtherObject
  | VRef _ =>
      match class_of h v with
      | Some IsErrorPrototype | Some InheritsError => InheritsError
      | _ => OtherObject
      end
  | _ => old
  end.

(** [result[key] = v] on an object created by an object literal. The key
    [__proto__] reaches the accessor inherited from [Object.prototype]
    and defines no own property. *)
Definition assign (h : list object) (key : string) (v : value) (o : object) : object :=
  if String.eqb key "__proto__"
  then {| o_class := reparented h v (o_class o); o_props := o_props o |}
  else {| o_class := o_class o; o_props := define_prop (KString key) v (o_props o) |}.

Definition set_prop (result : addr) (key : string) (v : value) : M unit :=
  set_env (fun e => with_heap (alter (assign (e_heap e) key v) result (e_heap e)) e).

(** ** The methods of [MochaRemoteClient] *)

Section MochaRemoteClient.

(** Two library functions are left open: [JSON.parse] on the data of an
    inbound frame ([None] when it throws a SyntaxError), and flatted's
    [stringify] on the outbound envelope [{ eventName, args }], which reads
    the heap the arguments point into. *)
Variable JSON_parse : string -> option json.
Variable stringify : list object -> string -> list value -> string.

Definition id_text (i : option string) : string :=
  match i with
  | Some s => s
  | None => "undefined"
  end.

Definition connect (fn : option callback) : M unit :=
  do c <- this;
  match ws c with
  | Some _ => throw (Error "Already connected")
  | None =>
      (* Prevent a timeout from reconnecting *)
      match retryTimeout c with
      | Some t => clearTimeout t
      | None => ret tt
      end;;
      debug (Connecting_to (url (config c)));;
      do h <- new_WebSocket (url (config c)) ("mocha-remote-" +:+ id_text (id (config c)));
      set_ws (Some h);;
      addEventListener h "close" onClose_fn;;
      addEventListener h "error" onError_fn;;
      addEventListener h "message" onMessage_fn;;
      addEventListener h "open" (open_arrow fn)
  end.

(** The body of the open listener that [connect] registers. *)
Definition on_open (fn : option callback) (target : sock) : M unit :=
  do c <- this;
  debug (Connected_to (url (config c)));;
  notify (onConnected (config c)) (fun f => Call_onConnected f target);;
  notify fn Call_connect_fn.

Definition disconnect : M unit :=
  do c <- this;
  (* Prevent a timeout from reconnecting *)
  match retryTimeout c with
  | Some t => clearTimeout t
  | None => ret tt
  end;;
  match ws c with
  | Some h =>
      debug Disconnecting_from_server;;
      (* Stop listening for the closing events to prevent reconnecting *)
      removeEventListener h "close" onClose_fn;;
      removeEventListener h "error" onError_fn;;
      removeEventListener h "message" onMessage_fn;;
      ws_close h;;
      (* Forget about the WebSocket *)
      set_ws None
  | None =>
      debug Disconnecting_from_server
  end.

Definition instrumented (o : mocha) : mocha :=
  {| m_originalRun := Some (m_run o);
     m_run := instrumented_run;
     m_reporter := instrumented_reporter;
     m__reporter := m__reporter o |}.

Definition instrument (m : mref) : M mref :=
  (* Hang on to this instance *)
  set_instrumentedMocha (Some m);;
  (* Monkey patch the run method, and the reporter method *)
  update_mocha m instrumented;;
  (* Notify that a Mocha instance is now instrumented *)
  do c <- this;
  notify (onInstrumented (config c)) (fun f => Call_onInstrumented f m);;
  ret m.

Definition with__reporter (cls : reporter_class) (o : mocha) : mocha :=
  {| m_run := m_run o; m_originalRun := m_originalRun o;
     m_reporter := m_reporter o; m__reporter := cls |}.

(** [mocha.originalRun()]. *)
Definition call_originalRun (m : mref) : M rref :=
  do e <- environment;
  match e_mochas e !! m with
  | Some o =>
      match m_originalRun o with
      | Some f => call_run_entry f m
      | None => throw (TypeError "mocha.originalRun is not a function")
      end
  | None => throw (TypeError "mocha.originalRun is not a function")
  end.

Definition run (m : mref) : M rref :=
  (* Monkey patch the reporter to a method before running *)
  let reporter := createReporter in
  update_mocha m (with__reporter reporter);;
  emit (Set_reporter m reporter);;
  (* Call the original run method *)
  do runner <- call_originalRun m;
  (* Signal that the mocha instance is now running *)
  do c <- this;
  notify (onRunning (config c)) (fun f => Call_onRunning f runner);;
  ret runner.

Definition getMocha : M mref :=
  do c <- this;
  match instrumentedMocha c with
  | Some m =>
      (* Use the latest instrumented mocha instance - if it exists *)
      ret m
  | None =>
      (* Create a new Mocha instance *)
      do mocha <- call_createMocha (config c);
      instrument mocha
  end.

(** The function [prepareArgs] maps over the arguments. *)
Definition prepareArg (arg : value) : M value :=
  do e <- environment;
  if instanceof_Error (e_heap e) arg then
    do result <- alloc_object {| o_class := OtherObject; o_props := [] |};
    do e0 <- environment;
    forEach (getOwnPropertyNames (own_props (e_heap e0) arg)) (fun key =>
      do e' <- environment;
      set_prop result key (get_prop (e_heap e') arg key));;
    ret (VRef result)
  else ret arg.

Fixpoint prepareArgs (args : list value) : M (list value) :=
  match args with
  | [] => ret []
  | arg :: rest =>
      do r <- prepareArg arg;
      do rs <- prepareArgs rest;
      ret (r :: rs)
  end.

Definition send (eventName : string) (args : list value) : M unit :=
  let closed : M unit :=
    throw (Error ("Cannot send " +:+ eventName +:+ " WebSocket is closed")) in
  do c <- this;
  match ws c with
  | Some h =>
      do state <- readyState h;
      match state with
      | Some OPEN =>
          do preparedArgs <- prepareArgs args;
          do e <- environment;
          let data := stringify (e_heap e) eventName preparedArgs in
          debug (Sending_message eventName);;
          ws_send h data
      | _ => closed
      end
  | None => closed
  end.

Definition onClose (code : Z) (reason : string) : M unit :=
  debug (Connection_closed (if String.eqb reason EmptyString then "No reason" else reason) code);;
  (* Forget about the client *)
  set_ws None;;
  (* Try reconnecting *)
  do c <- this;
  when (negb (Z.eqb code 1000) && autoRetry (config c))
    (debug (Reconnecting_in (retryDelay (config c)));;
     do t <- setTimeout reconnect_arrow (retryDelay (config c));
     set_retryTimeout (Some t));;
  notify (onDisconnected (config c)) (fun f => Call_onDisconnected f code reason).

(** The error of an error event: absent, or an Error with its message. *)
Definition onError (error : option string) : M unit :=
  debug (WebSocket_error
           match error with
           | Some message => if String.eqb message EmptyString then "No message" else message
           | None => "No specific error"
           end).

(** [data.eventName] on a decoded frame: reading a property of null
    throws; a value that is not an object has no such property. *)
Fixpoint member (key : string) (ms : list (string * json)) : option json :=
  match ms with
  | [] => None
  | (k, v) :: rest => if String.eqb k key then Some v else member key rest
  end.

Definition get_eventName (data : json) : M (option json) :=
  match data with
  | JNull => throw (TypeError "Cannot read properties of null (reading 'eventName')")
  | JObject ms => ret (member "eventName" ms)
  | _ => ret None
  end.

(** [x === "run"]. *)
Definition is_run (x : option json) : bool :=
  match x with
  | Some (JString s) => String.eqb s "run"
  | _ => false
  end.

Definition onMessage (event_data : string) : M unit :=
  match JSON_parse event_data with
  | None => throw (SyntaxError "JSON.parse")
  | Some data =>
      do eventName <- get_eventName data;
      debug (Received_message eventName);;
      when (is_run eventName)
        (do mocha <- getMocha;
         set_instrumentedMocha None;;
         do _ <- run mocha;
         ret tt)
  end.

(** [new MochaRemoteClient(config)], in an environment [e]. *)
Definition constructor (cfg : PartialConfig) (e : env) : outcome client * env :=
  let w := {| w_this := {| config := spread DEFAULT_CONFIG cfg; ws := None;
                           instrumentedMocha := None; retryTimeout := None |};
              w_env := e |} in
  if negb (e_WebSocket_defined e) then
    (Throw (Error "mocha-remote-client expects a global WebSocket"), e)
  else if autoConnect (config (w_this w)) then
    match connect None w with
    | (Ok _, w') => (Ok (w_this w'), w_env w')
    | (Throw x, w') => (Throw x, w_env w')
    end
  else (Ok (w_this w), e).

(** ** What the collaborators do to the client *)

(** The events a WebSocket delivers to its listeners. *)
Inductive ws_event :=
| open_event
| close_event (code : Z) (reason : string)
| error_event (error : option string)
| message_event (data : string).

Definition event_type (ev : ws_event) : string :=
  match ev with
  | open_event => "open"
  | close_event _ _ => "close"
  | error_event _ => "error"
  | message_event _ => "message"
  end.

(** Calling a registered listener with an event on socket [h]. *)
Definition call_listener (h : sock) (l : listener) (ev : ws_event) : M unit :=
  match l, ev with
  | onClose_fn, close_event code reason => onClose code reason
  | onError_fn, error_event error => onError error
  | onMessage_fn, message_event data => onMessage data
  | open_arrow fn, open_event => on_open fn h
  | _, _ => ret tt
  end.

(** An exception that leaves a listener or a timer function is reported
    and goes no further. *)
Definition uncaught (m : M unit) : M unit :=
  fun w =>
    match m w with
    | (Ok _, w') => (Ok tt, w')
    | (Throw x, w') => emit (Uncaught x) w'
    end.

Definition state_after (ev : ws_event) (s : socket) : socket :=
  match ev with
  | open_event => with_readyState OPEN s
  | close_event _ _ => with_readyState CLOSED s
  | _ => s
  end.

(** The transport fires [ev] on socket [h]: the listeners registered for
    its type are called in registration order. *)
Definition dispatch (h : sock) (ev : ws_event) : M unit :=
  update_socket h (state_after ev);;
  do e <- environment;
  let listeners := match e_sockets e !! h with
                   | Some s => s_listeners s
                   | None => []
                   end in
  forEach listeners (fun '(type, l) =>
    when (String.eqb type (event_type ev)) (uncaught (call_listener h l ev))).

(** A pending timer comes due. *)
Definition fire (t : timer_id) : M unit :=
  do e <- environment;
  match List.find (fun x => Pos.eqb (t_id x) t) (e_timers e) with
  | Some x =>
      set_env (fun e => with_timers (cancel t (e_timers e)) (e_next_timer e) e);;
      match t_fn x with
      | reconnect_arrow => uncaught (connect None)
      end
  | None => ret tt
  end.

(** The runner emits a lifecycle event: its listeners for that name are
    called with the arguments, and an exception reaches the emitter. *)
Definition runner_emit (r : rref) (eventName : string) (args : list value) : M unit :=
  do e <- environment;
  let listeners := match e_runners e !! r with
                   | Some x => r_listeners x
                   | None => []
                   end in
  forEach listeners (fun '(name, bound) =>
    when (String.eqb name eventName) (send bound args)).

(** The part of the trace a computation adds. *)
Definition added (w w' : world) : list event :=
  drop (length (e_trace (w_env w))) (e_trace (w_env w')).

(** [this.ws && this.ws.readyState === WebSocket.OPEN] *)
Definition connection_open (w : world) : bool :=
  match ws (w_this w) with
  | Some h =>
      match s_readyState <$> e_sockets (w_env w) !! h with
      | Some OPEN => true
      | _ => false
      end
  | None => false
  end.

(** Classifiers of trace events. *)
Definition is_setTimeout (e : event) : bool :=
  match e with Called_setTimeout _ _ _ => true | _ => false end.

Definition is_WebSocket_new (e : event) : bool :=
  match e with WebSocket_new _ _ _ => true | _ => false end.

Definition is_onDisconnected (e : event) : bool :=
  match e with Call_onDisconnected _ _ _ => true | _ => false end.

Definition is_Mocha_run (e : event) : bool :=
  match e with Mocha_run _ _ => true | _ => false end.

(** A run is dispatched between two worlds when the shim installed its
    reporter on some instance in between, the first thing [run] does. *)
Definition run_dispatched (w w' : world) : Prop :=
  exists m, Set_reporter m remote_reporter ∈ added w w'.

(** Everything but the trace. *)
Definition collaborators (e : env) : env := with_trace [] e.

(** [emits P m]: running [m] appends events to the trace, all of them
    satisfying [P], whatever the outcome. *)
Definition emits {A} (P : event -> Prop) (m : M A) : Prop :=
  forall w, exists xs,
    e_trace (w_env (m w).2) = e_trace (w_env w) ++ xs /\ Forall P xs.

(** Events other than a call of [onDisconnected]. *)
Definition not_onDisconnected (e : event) : Prop := is_onDisconnected e = false.

(** ** Worlds to evaluate on *)

(** A platform with WebSocket and nothing allocated yet. *)
Definition empty_env : env :=
  {| e_WebSocket_defined := true; e_sockets := []; e_timers := [];
     e_next_timer := 1%positive; e_mochas := []; e_runners := [];
     e_heap := []; e_trace := [] |}.

(** A client with the default configuration that has not connected. *)
Definition idle_world : world :=
  {| w_this := {| config := DEFAULT_CONFIG; ws := None;
                  instrumentedMocha := None; retryTimeout := None |};
     w_env := empty_env |}.

(** The same client after [connect()]. *)
Definition connected_world : world := (connect None idle_world).2.

(** The claim that [disconnect] leaves no listener on the connection it
    closes. *)
Definition all_listeners_unregistered (w w' : world) : Prop :=
  forall h, ws (w_this w) = Some h ->
    s_listeners <$> e_sockets (w_env w') !! h = Some [].

(** A decoded frame names a run: it is an object whose [eventName] is the
    string "run". *)
Definition names_run (data : json) : Prop :=
  exists ms, data = JObject ms /\ member "eventName" ms = Some (JString "run").

(** A decoded frame is the envelope [{ type: "run" }]. *)
Definition is_type_run_envelope (data : json) : Prop :=
  exists ms, data = JObject ms /\ member "type" ms = Some (JString "run").

Definition is_debug (e : event) : Prop :=
  match e with Debug _ => True | _ => False end.

(** [keeps_this m]: running [m] leaves the fields of the client alone. *)
Definition keeps_this {A} (m : M A) : Prop :=
  forall w, w_this (m w).2 = w_this w.

(** The event that records the making of instance [n] by the factory. *)
Definition made_by (cfg : IMochaRemoteClientConfig) (n : mref) : event :=
  match createMocha cfg with
  | default_createMocha => Mocha_new (mochaOptions cfg) n
  | user_createMocha f => Call_createMocha f n
  end.

(** ** Vocabulary for [prepareArgs] *)

(** A value that is a reference points into the heap. *)
Definition points_into (h : list object) (v : value) : Prop :=
  match v with
  | VRef a => (a < length h)%nat
  | _ => True
  end.

(** The object the loop of [prepareArg] has built when it ends: starting
    from the empty literal, one assignment per own property name of the
    argument, each made in the heap as it stands then. *)
Definition copied (h : list object) (arg : value) : object :=
  fold_left (fun o key => assign (h ++ [o]) key (get_prop h arg key) o)
    (getOwnPropertyNames (own_props h arg))
    {| o_class := OtherObject; o_props := [] |}.

(** The claim that [result] carries every own property of [arg]. *)
Definition carries_every_own_property
    (h h' : list object) (arg result : value) : Prop :=
  forall k p, lookup_prop k (own_props h arg) = Some p ->
    exists p', lookup_prop k (own_props h' result) = Some p' /\
               p_value p' = p_value p.

(** A heap holding one Error: message and stack are not enumerable, [code]
    is a custom field, one property is keyed by a symbol and one is an own
    property named [__proto__]. *)
Definition error_heap : list object :=
  [ {| o_class := InheritsError;
       o_props :=
         [ (KString "stack", {| p_value := VString "Error: boom"; p_enumerable := false |});
           (KString "message", {| p_value := VString "boom"; p_enumerable := false |});
           (KString "code", {| p_value := VNumber 42; p_enumerable := true |});
           (KSymbol 0, {| p_value := VString "tagged"; p_enumerable := true |});
           (KString "__proto__", {| p_value := VString "own"; p_enumerable := true |}) ] |} ].

Definition error_world : world :=
  {| w_this := w_this idle_world;
     w_env := with_heap error_heap (w_env idle_world) |}.

(** How [prepareArgs] answers for one argument: [arg], seen in the heap [h]
    it was called in, becomes [r], seen in the heap [h'] it leaves. An
    argument that is not an Error is handed back as it is. An Error is
    replaced by a reference to a new object that holds, as enumerable data
    properties, the own string-keyed properties of the Error other than
    [__proto__], with their values, and nothing else; it is an ordinary
    object when the Error has no own [__proto__]. *)
Definition prepared_from (h h' : list object) (arg r : value) : Prop :=
  (instanceof_Error h arg = false -> r = arg) /\
  (instanceof_Error h arg = true ->
     exists a o,
       r = VRef a /\ (length h <= a)%nat /\ h' !! a = Some o /\
       (forall s p,
          s <> "__proto__" ->
          lookup_prop (KString s) (own_props h arg) = Some p ->
          lookup_prop (KString s) (o_props o) =
            Some {| p_value := p_value p; p_enumerable := true |}) /\
       (forall k p',
          lookup_prop k (o_props o) = Some p' ->
          exists s p,
            k = KString s /\ s <> "__proto__" /\
            lookup_prop (KString s) (own_props h arg) = Some p /\
            p' = {| p_value := p_value p; p_enumerable := true |}) /\
       (lookup_prop (KString "__proto__") (own_props h arg) = None ->
        o_class o = OtherObject)).

(** ** Stand-ins for the two library functions, to evaluate with *)

(** A [JSON.parse] that decodes every frame to [data]. *)
Definition parse_as (data : json) : string -> option json := fun _ => Some data.

(** A [stringify] that keeps the event name only. *)
Definition stringify_name : list object -> string -> list value -> string :=
  fun _ eventName _ => eventName.

(** The frames [{ eventName: "run" }] and [{ type: "run" }], decoded. *)
Definition eventName_run_frame : json := JObject [("eventName", JString "run")].
Definition type_run_frame : json := JObject [("type", JString "run")].

(** A client that has not connected, and one framework instance. *)
Definition mocha_world : world :=
  {| w_this := w_this idle_world;
     w_env := with_mochas [fresh_mocha] (w_env idle_world) |}.

(** A configuration argument that sets nothing. *)
Definition no_options : PartialConfig :=
  {| p_autoConnect := None; p_autoRetry := None; p_retryDelay := None;
     p_url := None; p_id := None; p_onConnected := None;
     p_onDisconnected := None; p_onInstrumented := None; p_onRunning := None;
     p_createMocha := None; p_mochaOptions := None |}.

(** ** The life of a client *)

(** What can happen to a client: a call of one of its public methods, an
    event fired by the transport on a socket, a timer coming due, a
    lifecycle event emitted by a runner. *)
Inductive action :=
| call_connect (fn : option callback)
| call_disconnect
| call_instrument (m : mref)
| call_run (m : mref)
| call_getMocha
| transport (h : sock) (ev : ws_event)
| timer_due (t : timer_id)
| runner_event (r : rref) (eventName : string) (args : list value).

Definition perform (a : action) (w : world) : world :=
  match a with
  | call_connect fn => (connect fn w).2
  | call_disconnect => (disconnect w).2
  | call_instrument m => (instrument m w).2
  | call_run m => (run m w).2
  | call_getMocha => (getMocha w).2
  | transport h ev => (dispatch h ev w).2
  | timer_due t => (fire t w).2
  | runner_event r eventName args => (runner_emit r eventName args w).2
  end.

(** What the transport may do: a socket opens while it is connecting,
    delivers messages while it is open, and closes once. *)
Definition enabled (a : action) (w : world) : Prop :=
  match a with
  | transport h ev =>
      match e_sockets (w_env w) !! h with
      | Some s =>
          match ev with
          | open_event => s_readyState s = CONNECTING
          | message_event _ => s_readyState s = OPEN
          | close_event _ _ => s_readyState s <> CLOSED
          | error_event _ => True
          end
      | None => False
      end
  | _ => True
  end.

(** The worlds a client can be in: it is constructed where no socket and
    no timer exists yet, and then things happen to it. *)
Inductive reachable : world -> Prop :=
| reachable_constructed cfg e c e' :
    e_sockets e = [] -> e_timers e = [] ->
    constructor cfg e = (Ok c, e') ->
    reachable {| w_this := c; w_env := e' |}
| reachable_step a w :
    reachable w -> enabled a w -> reachable (perform a w).

(** The client of [connected_world] after the transport reported its
    connection lost. *)
Definition retrying_world : world :=
  perform (transport 0%nat (close_event 1006 "lost")) connected_world.

(** The part of a world the connection manager works on. *)
Definition connection_state (w : world)
  : option sock * option timer_id * list socket * list timer :=
  (ws (w_this w), retryTimeout (w_this w), e_sockets (w_env w), e_timers (w_env w)).

(** [keeps_connection m]: running [m] leaves the connection manager's
    state alone. *)
Definition keeps_connection {A} (m : M A) : Prop :=
  forall w, connection_state (m w).2 = connection_state w.

(** At most one timer is pending, the one recorded in [retryTimeout]. *)
Definition one_recorded_timer (w : world) : Prop :=
  match e_timers (w_env w) with
  | [] => True
  | [x] => retryTimeout (w_this w) = Some (t_id x)
  | _ => False
  end.

(** Only the stored connection still listens for its close event. *)
Definition only_stored_listens (w : world) : Prop :=
  forall h s,
    e_sockets (w_env w) !! h = Some s ->
    ("close", onClose_fn) ∈ s_listeners s ->
    s_readyState s <> CLOSED ->
    ws (w_this w) = Some h.

(** A retry is pending only while no connection is stored. *)
Definition retry_only_disconnected (w : world) : Prop :=
  e_timers (w_env w) <> [] -> ws (w_this w) = None.

(** No listener is registered twice on a socket. *)
Definition listeners_distinct (w : world) : Prop :=
  forall h s, e_sockets (w_env w) !! h = Some s -> NoDup (s_listeners s).

(** The stored connection carries [onClose] and has not closed. *)
Definition stored_listens (w : world) : Prop :=
  forall h, ws (w_this w) = Some h ->
    exists s, e_sockets (w_env w) !! h = Some s /\
              ("close", onClose_fn) ∈ s_listeners s /\
              s_readyState s <> CLOSED.

Definition connection_invariant (w : world) : Prop :=
  one_recorded_timer w /\ only_stored_listens w /\
  retry_only_disconnected w /\ listeners_distinct w /\ stored_listens w.

(** ** Vocabulary for the properties of single methods *)

Definition is_uncaught (e : event) : bool :=
  match e with Uncaught _ => true | _ => false end.

(** [keeps_config m]: running [m] leaves [this.config] alone. *)
Definition keeps_config {A} (m : M A) : Prop :=
  forall w, config (w_this (m w).2) = config (w_this w).

(** [only_logs m]: [m] returns and does nothing but write debug lines. *)
Definition only_logs (m : M unit) : Prop :=
  forall w, exists xs,
    m w = (Ok tt, {| w_this := w_this w;
                     w_env := with_trace (e_trace (w_env w) ++ xs) (w_env w) |}) /\
    Forall is_debug xs.

(** The listeners the reporter of [createReporter] attaches to a runner. *)
Definition reporter_listeners : list (string * string) :=
  (fun name => (name, name)) <$> MOCHA_EVENT_NAMES.

(** The text [onError] logs for the error of an error event. *)
Definition error_text (error : option string) : string :=
  match error with
  | Some message => if String.eqb message EmptyString then "No message" else message
  | None => "No specific error"
  end.

(** Every pending timer was set by a client that retries, for its
    [retryDelay]. *)
Definition retries_as_configured (w : world) : Prop :=
  forall x, x ∈ e_timers (w_env w) ->
    autoRetry (config (w_this w)) = true /\
    t_delay x = retryDelay (config (w_this w)).

Definition keeps_retries {A} (m : M A) : Prop :=
  forall w, retries_as_configured w -> retries_as_configured (m w).2.

Definition is_WebSocket_send (e : event) : bool :=
  match e with WebSocket_send _ _ => true | _ => false end.

Definition is_WebSocket_close (e : event) : bool :=
  match e with WebSocket_close _ => true | _ => false end.

(** Events other than a frame sent, other than a socket closed. *)
Definition not_send (e : event) : Prop := is_WebSocket_send e = false.
Definition not_close (e : event) : Prop := is_WebSocket_close e = false.

(** * Properties *)

(** A proof depends on the two library functions only when its statement
    does. *)
#[local] Set Default Proof Using "Type".

Ltac statement_only := try clear JSON_parse; try clear stringify.

(** ** The trace only grows *)

Lemma added_app (w w' : world) (xs : list event) :
  e_trace (w_env w') = e_trace (w_env w) ++ xs -> added w w' = xs.
Proof.
  intros H. unfold added. rewrite H. apply drop_app_length.
Qed.

Lemma emits_ret {A} P (a : A) : emits P (ret a).
Proof. intros w. exists []. cbn. rewrite app_nil_r. auto. Qed.

Lemma emits_throw {A} P (x : exn) : emits P (@throw A x).
Proof. intros w. exists []. cbn. rewrite app_nil_r. auto. Qed.

Lemma emits_bind {A B} P (m : M A) (k : A -> M B) :
  emits P m -> (forall a, emits P (k a)) -> emits P (bind m k).
Proof.
  intros Hm Hk w. unfold bind.
  destruct (Hm w) as (xs & Hxs & HP).
  destruct (m w) as [[a|x] w1]; cbn in *.
  - destruct (Hk a w1) as (ys & Hys & HQ).
    exists (xs ++ ys). rewrite Hys, Hxs, app_assoc. split; [done|].
    apply Forall_app; auto.
  - exists xs. auto.
Qed.

Lemma emits_emit P (ev : event) : P ev -> emits P (emit ev).
Proof. intros H w. exists [ev]. cbn. auto. Qed.

Lemma emits_this P : emits P this.
Proof. intros w. exists []. cbn. rewrite app_nil_r. auto. Qed.

Lemma emits_environment P : emits P environment.
Proof. intros w. exists []. cbn. rewrite app_nil_r. auto. Qed.

Lemma emits_set_this P f : emits P (set_this f).
Proof. intros w. exists []. cbn. rewrite app_nil_r. auto. Qed.

Lemma emits_set_env P f :
  (forall e, e_trace (f e) = e_trace e) -> emits P (set_env f).
Proof. intros H w. exists []. cbn. rewrite H, app_nil_r. auto. Qed.

Lemma emits_when P b m : emits P m -> emits P (when b m).
Proof. destruct b; cbn; auto using emits_ret. Qed.

Lemma emits_notify P f ev : (forall g, P (ev g)) -> emits P (notify f ev).
Proof. destruct f; cbn; auto using emits_ret, emits_emit. Qed.

Lemma emits_forEach {A} P (xs : list A) (f : A -> M unit) :
  (forall x, emits P (f x)) -> emits P (forEach xs f).
Proof.
  intros H. induction xs; cbn; auto using emits_ret, emits_bind.
Qed.

Lemma emits_uncaught P m :
  (forall x, P (Uncaught x)) -> emits P m -> emits P (uncaught m).
Proof.
  intros HU Hm w. unfold uncaught.
  destruct (Hm w) as (xs & Hxs & HP).
  destruct (m w) as [[a|x] w1]; cbn in *.
  - exists xs. auto.
  - exists (xs ++ [Uncaught x]). rewrite Hxs, app_assoc. split; [done|].
    apply Forall_app; auto.
Qed.

Create HintDb emits discriminated.
#[local] Hint Resolve emits_ret emits_throw emits_emit emits_this emits_environment
  emits_set_this emits_when emits_notify emits_forEach emits_uncaught : emits.
#[local] Hint Extern 2 (emits _ (bind _ _)) => apply emits_bind; [|intros] : emits.
#[local] Hint Extern 2 (emits _ (set_env _)) => apply emits_set_env; intros []; reflexivity : emits.
#[local] Hint Extern 3 (emits _ (match ?x with _ => _ end)) => destruct x : emits.
#[local] Hint Extern 3 (emits _ (let '(_, _) := ?x in _)) => destruct x : emits.

Ltac unfold_primitives :=
  repeat progress unfold debug, new_WebSocket, addEventListener, removeEventListener, ws_close,
    ws_send, readyState, update_socket, setTimeout, clearTimeout, alloc_mocha,
    call_createMocha, update_mocha, runner_addListener, alloc_object, set_prop,
    set_ws, set_instrumentedMocha, set_retryTimeout.

#[local] Hint Extern 1 (not_onDisconnected _) => reflexivity : emits.

Ltac solve_emits := unfold_primitives; auto 30 with emits.

Lemma connect_emits fn : emits not_onDisconnected (connect fn).
Proof. unfold connect. solve_emits. Qed.

Lemma disconnect_emits : emits not_onDisconnected disconnect.
Proof. unfold disconnect. solve_emits. Qed.

Lemma instrument_emits m : emits not_onDisconnected (instrument m).
Proof. unfold instrument. solve_emits. Qed.

Lemma call_run_entry_emits f m : emits not_onDisconnected (call_run_entry f m).
Proof.
  unfold call_run_entry, Mocha_run_original, construct_reporter. solve_emits.
Qed.

Lemma run_emits m : emits not_onDisconnected (run m).
Proof.
  pose proof call_run_entry_emits.
  unfold run, call_originalRun. solve_emits.
Qed.

Lemma getMocha_emits : emits not_onDisconnected getMocha.
Proof. pose proof instrument_emits. unfold getMocha. solve_emits. Qed.

Lemma prepareArgs_emits args : emits not_onDisconnected (prepareArgs args).
Proof.
  induction args; cbn; [solve_emits|].
  unfold prepareArg. solve_emits.
Qed.

Lemma send_emits eventName args : emits not_onDisconnected (send eventName args).
Proof. pose proof prepareArgs_emits. unfold send. solve_emits. Qed.

Lemma onError_emits error : emits not_onDisconnected (onError error).
Proof. unfold onError. solve_emits. Qed.

Lemma onMessage_emits data : emits not_onDisconnected (onMessage data).
Proof.
  pose proof getMocha_emits. pose proof run_emits.
  unfold onMessage, get_eventName. solve_emits.
Qed.

Lemma on_open_emits fn h : emits not_onDisconnected (on_open fn h).
Proof. unfold on_open. solve_emits. Qed.

Lemma fire_emits t : emits not_onDisconnected (fire t).
Proof. pose proof connect_emits. unfold fire. solve_emits. Qed.

(** ** Evaluating a method on a world *)

Ltac open_world w :=
  destruct w as [[[ac ar rd u i onC onD onI onR cM mO] wsx im rt]
                 [wd socks tms nt ms rs hp tr]].

(** Evaluation of the methods, call by value. Functions that look an
    object up in a store are left folded; their equations are stated below. *)
Ltac eval_M :=
  cbv [bind ret throw when this set_this set_ws set_instrumentedMocha
       set_retryTimeout environment set_env with_sockets with_timers with_mochas
       with_runners with_heap with_trace emit debug notify
       new_WebSocket update_socket
       addEventListener removeEventListener ws_close ws_send
       setTimeout clearTimeout alloc_mocha call_createMocha update_mocha
       createReporter call_run_entry alloc_object
       connect on_open disconnect instrument run getMocha
       onClose onError get_eventName onMessage constructor
       call_listener uncaught
       collaborators connection_open
       w_this w_env config ws instrumentedMocha retryTimeout
       autoConnect autoRetry retryDelay url id onConnected onDisconnected
       onInstrumented onRunning createMocha mochaOptions
       e_WebSocket_defined e_sockets e_timers e_next_timer e_mochas e_runners
       e_heap e_trace fst snd].

Lemma drop_past {A} (tr l : list A) (n : nat) :
  drop (length tr + n) (tr ++ l) = drop n l.
Proof.
  induction tr as [|x tr IH]; cbn; [reflexivity | apply IH].
Qed.

Lemma drop_all {A} (tr : list A) : drop (length tr) tr = [].
Proof. induction tr; cbn; auto. Qed.

Ltac trace_delta :=
  cbv [added w_env e_trace]; rewrite <- ?app_assoc; cbn [app];
  rewrite ?length_app; cbn [length];
  rewrite ?drop_past, ?drop_app_length, ?drop_all; cbn.

Lemma find_timer_last (t : timer_id) (x : timer) (ts : list timer) :
  t_id x = t ->
  exists y, List.find (fun z => Pos.eqb (t_id z) t) (ts ++ [x]) = Some y.
Proof.
  intros Hx. induction ts as [|z ts IH]; cbn.
  - rewrite Hx, Pos.eqb_refl. eauto.
  - destruct (Pos.eqb (t_id z) t); eauto.
Qed.

Lemma alter_last {A} (f : A -> A) (l : list A) (x : A) :
  alter f (length l) (l ++ [x]) = l ++ [f x].
Proof. induction l as [|y l IH]; cbn; [reflexivity|]. f_equal. apply IH. Qed.

Lemma lookup_last {A} (l : list A) (x : A) : (l ++ [x]) !! length l = Some x.
Proof. induction l as [|y l IH]; cbn; [reflexivity|]. apply IH. Qed.

(** ** Protocol misuse *)

(** C2. A misuse of the protocol fails with an explicit error and changes
    nothing: [connect] while a connection is stored throws "Already
    connected", [send] while the connection is not open throws "Cannot send
    <eventName> WebSocket is closed"; in both cases the world that comes
    back, hence the stored connection, timer and instrumented instance, is
    the world that went in. *)
Theorem misuse_throws_and_changes_nothing (w : world) :
  (forall fn h, ws (w_this w) = Some h ->
     connect fn w = (Throw (Error "Already connected"), w)) /\
  (forall eventName args, connection_open w = false ->
     send eventName args w =
       (Throw (Error ("Cannot send " +:+ eventName +:+ " WebSocket is closed")), w)).
Proof.
  open_world w. split.
  - intros fn h Hws. cbn in Hws. subst wsx. reflexivity.
  - intros eventName args Hclosed. unfold connection_open in Hclosed.
    cbn in Hclosed. unfold send. cbn.
    destruct wsx as [h|]; [|reflexivity]. cbn.
    destruct (s_readyState <$> socks !! h) as [[]|]; try reflexivity.
    discriminate.
Qed.

(** ** The connection manager, method by method *)

Lemma onClose_returns (code : Z) (reason : string) (w : world) :
  (onClose code reason w).1 = Ok tt.
Proof.
  open_world w. unfold onClose, bind, when. cbn.
  destruct (code =? 1000), ar, onD; reflexivity.
Qed.

(** The listeners [connect] registers on the socket it creates. *)
Lemma connect_listeners (fn : option callback) :
  add_listener "open" (open_arrow fn)
    (add_listener "message" onMessage_fn
       (add_listener "error" onError_fn
          (add_listener "close" onClose_fn []))) =
  [("close", onClose_fn); ("error", onError_fn); ("message", onMessage_fn);
   ("open", open_arrow fn)].
Proof. destruct fn; reflexivity. Qed.

(** [connect] when no connection is stored. *)
Lemma connect_fresh (fn : option callback) (w : world) :
  ws (w_this w) = None ->
  let c := config (w_this w) in
  let h := length (e_sockets (w_env w)) in
  let protocol := "mocha-remote-" +:+ id_text (id c) in
  connect fn w =
    (Ok tt,
     {| w_this := {| config := c; ws := Some h;
                     instrumentedMocha := instrumentedMocha (w_this w);
                     retryTimeout := retryTimeout (w_this w) |};
        w_env :=
          with_trace
            (e_trace (w_env w) ++
               match retryTimeout (w_this w) with
               | Some t => [Called_clearTimeout t]
               | None => []
               end ++
               [Debug (Connecting_to (url c));
                WebSocket_new h (url c) protocol;
                WebSocket_addEventListener h "close" onClose_fn;
                WebSocket_addEventListener h "error" onError_fn;
                WebSocket_addEventListener h "message" onMessage_fn;
                WebSocket_addEventListener h "open" (open_arrow fn)])
            (with_sockets
               (e_sockets (w_env w) ++
                  [{| s_url := url c; s_protocol := protocol;
                      s_readyState := CONNECTING;
                      s_listeners :=
                        [("close", onClose_fn); ("error", onError_fn);
                         ("message", onMessage_fn); ("open", open_arrow fn)] |}])
               (with_timers
                  match retryTimeout (w_this w) with
                  | Some t => cancel t (e_timers (w_env w))
                  | None => e_timers (w_env w)
                  end
                  (e_next_timer (w_env w)) (w_env w))) |}).
Proof.
  open_world w. cbn [w_this ws]. intros ->. cbv zeta.
  destruct rt as [t|]; eval_M; rewrite !alter_last;
    cbn [with_listeners s_listeners s_url s_protocol s_readyState];
    rewrite connect_listeners, <- ?app_assoc; reflexivity.
Qed.

Lemma cancel_idempotent (t : timer_id) (ts : list timer) :
  cancel t (cancel t ts) = cancel t ts.
Proof.
  unfold cancel. induction ts as [|x ts IH]; cbn; [reflexivity|].
  destruct (Pos.eqb (t_id x) t) eqn:E; cbn; [apply IH|].
  rewrite E. cbn. f_equal. apply IH.
Qed.

Lemma cancel_not_pending (t : timer_id) (ts : list timer) (x : timer) :
  x ∈ cancel t ts -> t_id x <> t.
Proof.
  unfold cancel. rewrite list_elem_of_In, List.filter_In.
  intros [_ H] E. rewrite E, Pos.eqb_refl in H. discriminate.
Qed.

Lemma cancel_all (t : timer_id) (ts : list timer) :
  (forall x, x ∈ ts -> t_id x = t) -> cancel t ts = [].
Proof.
  unfold cancel. induction ts as [|x ts IH]; cbn; intros H; [reflexivity|].
  rewrite (H x) by left. rewrite Pos.eqb_refl. cbn.
  apply IH. intros y Hy. apply H. by right.
Qed.

Lemma remove_listener_gone (type : string) (l : listener) ls :
  (type, l) ∉ remove_listener type l ls.
Proof.
  unfold remove_listener. rewrite list_elem_of_In, List.filter_In.
  intros [_ H]. rewrite bool_decide_eq_true_2 in H by reflexivity. discriminate.
Qed.

Lemma remove_listener_keeps_out (type type' : string) (l l' : listener) ls :
  (type, l) ∉ ls -> (type, l) ∉ remove_listener type' l' ls.
Proof.
  statement_only.
  unfold remove_listener. rewrite !list_elem_of_In, List.filter_In. tauto.
Qed.

Lemma remove_listener_keeps (type type' : string) (l l' : listener) ls :
  (type, l) <> (type', l') ->
  (type, l) ∈ ls -> (type, l) ∈ remove_listener type' l' ls.
Proof.
  unfold remove_listener. rewrite !list_elem_of_In, List.filter_In.
  intros Hne Hin. split; [assumption|].
  rewrite bool_decide_eq_false_2 by assumption. reflexivity.
Qed.

Lemma closing_listeners (s : socket) : s_listeners (closing s) = s_listeners s.
Proof. unfold closing. destruct (s_readyState s); reflexivity. Qed.

(** The socket [disconnect] leaves behind. *)
Lemma disconnect_socket (s : socket) :
  let s1 := with_listeners (remove_listener "close" onClose_fn (s_listeners s)) s in
  let s2 := with_listeners (remove_listener "error" onError_fn (s_listeners s1)) s1 in
  let s3 := with_listeners (remove_listener "message" onMessage_fn (s_listeners s2)) s2 in
  let s' := closing s3 in
  (("close", onClose_fn) ∉ s_listeners s') /\
  (("error", onError_fn) ∉ s_listeners s') /\
  (("message", onMessage_fn) ∉ s_listeners s') /\
  (forall fn, ("open", open_arrow fn) ∈ s_listeners s ->
              ("open", open_arrow fn) ∈ s_listeners s') /\
  s_readyState s' = s_readyState (closing s).
Proof.
  cbv zeta. rewrite closing_listeners. cbn [s_listeners with_listeners].
  repeat split.
  - do 2 apply remove_listener_keeps_out. apply remove_listener_gone.
  - apply remove_listener_keeps_out. apply remove_listener_gone.
  - apply remove_listener_gone.
  - intros fn Hin. repeat (apply remove_listener_keeps; [discriminate|]).
    assumption.
  - unfold closing. cbn. destruct (s_readyState s); reflexivity.
Qed.

Lemma forEach_noop {A} (xs : list A) (f : A -> M unit) :
  (forall x, x ∈ xs -> forall w, f x w = (Ok tt, w)) ->
  forall w, forEach xs f w = (Ok tt, w).
Proof.
  induction xs as [|x xs IH]; intros H w; cbn; [reflexivity|].
  unfold bind. rewrite (H x) by left.
  apply IH. intros y Hy. apply H. by right.
Qed.

Lemma forEach_once {A} `{EqDecision A} (xs : list A) (f : A -> M unit) (x : A) :
  NoDup xs -> x ∈ xs ->
  (forall y, y ∈ xs -> y <> x -> forall w, f y w = (Ok tt, w)) ->
  forall w, forEach xs f w = f x w.
Proof.
  induction xs as [|y xs IH]; intros Hnd Hin Hothers w.
  - by apply elem_of_nil in Hin.
  - apply NoDup_cons in Hnd as [Hy Hnd]. cbn [forEach]. unfold bind.
    destruct (decide (y = x)) as [->|Hne].
    + destruct (f x w) as [[[]|e] w1]; [|reflexivity].
      apply forEach_noop. intros z Hz. apply Hothers; [by right | congruence].
    + rewrite Hothers by (first [left | exact Hne]).
      apply IH; [exact Hnd | | ].
      * apply elem_of_cons in Hin as [->|Hin]; [contradiction | exact Hin].
      * intros z Hz. apply Hothers. by right.
Qed.

(** A close event on a socket that does not carry [onClose] reaches no
    code of the client: only the state of the socket changes. *)
Lemma dispatch_close_unheard (h : sock) (code : Z) (reason : string) (w : world) :
  (forall s, e_sockets (w_env w) !! h = Some s ->
             ("close", onClose_fn) ∉ s_listeners s) ->
  dispatch h (close_event code reason) w =
    (Ok tt,
     {| w_this := w_this w;
        w_env := with_sockets
                   (alter (with_readyState CLOSED) h (e_sockets (w_env w)))
                   (w_env w) |}).
Proof.
  intros Hout. unfold dispatch, bind, update_socket, set_env, environment.
  cbn [state_after w_env w_this with_sockets e_sockets].
  cbv zeta. rewrite list_lookup_alter_eq.
  apply forEach_noop. intros [type l] Hin w'.
  destruct (e_sockets (w_env w) !! h) as [s|] eqn:Hs; cbn in Hin;
    [|by apply elem_of_nil in Hin].
  specialize (Hout s eq_refl). cbn [event_type].
  destruct (String.eqb type "close") eqn:Htype; [|reflexivity].
  apply String.eqb_eq in Htype. subst type.
  destruct l; try reflexivity. contradiction.
Qed.

(** A close event on a socket that carries [onClose] is handled by it,
    once. *)
Lemma dispatch_close_listening (h : sock) (s : socket)
    (code : Z) (reason : string) (w : world) :
  e_sockets (w_env w) !! h = Some s ->
  NoDup (s_listeners s) ->
  ("close", onClose_fn) ∈ s_listeners s ->
  dispatch h (close_event code reason) w =
    (Ok tt,
     (onClose code reason
        {| w_this := w_this w;
           w_env := with_sockets
                      (alter (state_after (close_event code reason)) h
                         (e_sockets (w_env w)))
                      (w_env w) |}).2).
Proof.
  intros Hs Hnd Hin. unfold dispatch, bind at 1, update_socket, set_env.
  unfold bind at 1, environment.
  cbn [w_env with_sockets e_sockets].
  cbv zeta. rewrite list_lookup_alter_eq, Hs.
  cbn [fmap option_fmap option_map].
  change (s_listeners (state_after (close_event code reason) s))
    with (s_listeners s).
  rewrite (forEach_once _ _ ("close", onClose_fn) Hnd Hin).
  - cbn [event_type String.eqb Ascii.eqb Bool.eqb when call_listener].
    unfold uncaught.
    match goal with |- context [onClose code reason ?w0] =>
      pose proof (onClose_returns code reason w0) as Hret;
      destruct (onClose code reason w0) as [[[]|e] w1]
    end; [reflexivity | discriminate].
  - intros [type l] _ Hne w0. cbn [event_type].
    destruct (String.eqb type "close") eqn:Htype; [|reflexivity].
    apply String.eqb_eq in Htype. subst type.
    destruct l; try reflexivity. congruence.
Qed.

Lemma disconnect_sockets (w : world) (h : sock) :
  ws (w_this w) = Some h ->
  forall s', e_sockets (w_env (disconnect w).2) !! h = Some s' ->
  ("close", onClose_fn) ∉ s_listeners s'.
Proof.
  open_world w. intros Hws. cbn in Hws. subst wsx.
  destruct rt as [t|]; eval_M; intros s';
    rewrite !list_lookup_alter_eq;
    (destruct (socks !! h) as [s|]; [|discriminate]);
    intros [= <-]; apply (disconnect_socket s).
Qed.

Lemma dispatch_emits (h : sock) (ev : ws_event) :
  (forall code reason, ev <> close_event code reason) ->
  emits not_onDisconnected (dispatch h ev).
Proof.
  intros Hev.
  pose proof onError_emits. pose proof onMessage_emits. pose proof on_open_emits.
  assert (forall l, emits not_onDisconnected (call_listener h l ev)).
  { intros l. destruct l, ev; cbn; auto with emits.
    exfalso. eapply Hev. reflexivity. }
  unfold dispatch. solve_emits.
Qed.

Lemma emits_added {A} P (m : M A) (w : world) :
  emits P m -> Forall P (added w (m w).2).
Proof.
  intros H. destruct (H w) as (xs & Hxs & HP).
  by rewrite (added_app _ _ _ Hxs).
Qed.

(** ** The connection manager's invariant *)

Lemma connection_invariant_state (w w' : world) :
  connection_state w' = connection_state w ->
  connection_invariant w -> connection_invariant w'.
Proof.
  unfold connection_state. intros [= Hws Hrt Hs Ht].
  unfold connection_invariant, one_recorded_timer, only_stored_listens,
    retry_only_disconnected, listeners_distinct, stored_listens.
  by rewrite Hws, Hrt, Hs, Ht.
Qed.

Lemma keeps_connection_ret {A} (a : A) : keeps_connection (ret a).
Proof. intros w. reflexivity. Qed.

Lemma keeps_connection_throw {A} (x : exn) : keeps_connection (@throw A x).
Proof. intros w. reflexivity. Qed.

Lemma keeps_connection_bind {A B} (m : M A) (k : A -> M B) :
  keeps_connection m -> (forall a, keeps_connection (k a)) ->
  keeps_connection (bind m k).
Proof.
  intros Hm Hk w. unfold bind. specialize (Hm w).
  destruct (m w) as [[a|x] w1]; cbn in *; [|assumption].
  by rewrite Hk.
Qed.

Lemma keeps_connection_this : keeps_connection this.
Proof. intros w. reflexivity. Qed.

Lemma keeps_connection_environment : keeps_connection environment.
Proof. intros w. reflexivity. Qed.

Lemma keeps_connection_set_env f :
  (forall e, e_sockets (f e) = e_sockets e /\ e_timers (f e) = e_timers e) ->
  keeps_connection (set_env f).
Proof.
  intros H w. unfold connection_state. cbn.
  destruct (H (w_env w)) as [-> ->]. reflexivity.
Qed.

Lemma keeps_connection_set_instrumentedMocha x :
  keeps_connection (set_instrumentedMocha x).
Proof. intros w. reflexivity. Qed.

Lemma keeps_connection_when b m : keeps_connection m -> keeps_connection (when b m).
Proof. destruct b; cbn; auto using keeps_connection_ret. Qed.

Lemma keeps_connection_notify f ev : keeps_connection (notify f ev).
Proof. destruct f; cbn; intros w; reflexivity. Qed.

Lemma keeps_connection_forEach {A} (xs : list A) (f : A -> M unit) :
  (forall x, keeps_connection (f x)) -> keeps_connection (forEach xs f).
Proof.
  intros H. induction xs; cbn;
    auto using keeps_connection_ret, keeps_connection_bind.
Qed.

Lemma keeps_connection_uncaught m :
  keeps_connection m -> keeps_connection (uncaught m).
Proof.
  intros Hm w. unfold uncaught. specialize (Hm w).
  destruct (m w) as [[a|x] w1]; cbn in *; assumption.
Qed.

Create HintDb conn discriminated.
#[local] Hint Resolve keeps_connection_ret keeps_connection_throw
  keeps_connection_this keeps_connection_environment
  keeps_connection_set_instrumentedMocha keeps_connection_when
  keeps_connection_notify keeps_connection_forEach keeps_connection_uncaught : conn.
#[local] Hint Extern 2 (keeps_connection (bind _ _)) =>
  apply keeps_connection_bind; [|intros] : conn.
#[local] Hint Extern 2 (keeps_connection (set_env _)) =>
  apply keeps_connection_set_env; intros []; split; reflexivity : conn.
#[local] Hint Extern 3 (keeps_connection (match ?x with _ => _ end)) =>
  destruct x : conn.
#[local] Hint Extern 3 (keeps_connection (let '(_, _) := ?x in _)) =>
  destruct x : conn.

Ltac solve_conn :=
  repeat progress unfold debug, emit, ws_send, readyState, alloc_mocha,
    call_createMocha, update_mocha, runner_addListener, alloc_object, set_prop;
  auto 30 with conn.

Lemma instrument_keeps_connection m : keeps_connection (instrument m).
Proof. unfold instrument. solve_conn. Qed.

Lemma run_keeps_connection m : keeps_connection (run m).
Proof.
  unfold run, call_originalRun, call_run_entry, Mocha_run_original,
    construct_reporter. solve_conn.
Qed.

Lemma getMocha_keeps_connection : keeps_connection getMocha.
Proof. pose proof instrument_keeps_connection. unfold getMocha. solve_conn. Qed.

Lemma prepareArgs_keeps_connection args : keeps_connection (prepareArgs args).
Proof.
  induction args; cbn; [solve_conn|]. unfold prepareArg. solve_conn.
Qed.

Lemma send_keeps_connection eventName args :
  keeps_connection (send eventName args).
Proof. pose proof prepareArgs_keeps_connection. unfold send. solve_conn. Qed.

Lemma runner_emit_keeps_connection r eventName args :
  keeps_connection (runner_emit r eventName args).
Proof. pose proof send_keeps_connection. unfold runner_emit. solve_conn. Qed.

Lemma onMessage_keeps_connection data : keeps_connection (onMessage data).
Proof.
  pose proof getMocha_keeps_connection. pose proof run_keeps_connection.
  unfold onMessage, get_eventName. solve_conn.
Qed.

Lemma onError_keeps_connection error : keeps_connection (onError error).
Proof. unfold onError. solve_conn. Qed.

Lemma on_open_keeps_connection fn h : keeps_connection (on_open fn h).
Proof. unfold on_open. solve_conn. Qed.

Lemma recorded_timer_cancelled (w : world) :
  one_recorded_timer w ->
  match retryTimeout (w_this w) with
  | Some t => cancel t (e_timers (w_env w))
  | None => e_timers (w_env w)
  end = [].
Proof.
  unfold one_recorded_timer, cancel.
  destruct (e_timers (w_env w)) as [|x [|y ts]]; [| |contradiction].
  - by destruct (retryTimeout _).
  - intros ->. cbn. by rewrite Pos.eqb_refl.
Qed.

Lemma connect_listeners_distinct (fn : option callback) :
  NoDup [("close", onClose_fn); ("error", onError_fn); ("message", onMessage_fn);
         ("open", open_arrow fn)].
Proof.
  repeat (apply NoDup_cons; split;
          [rewrite ?not_elem_of_cons; repeat split;
           first [discriminate | apply not_elem_of_nil]|]).
  apply NoDup_nil_2.
Qed.

Lemma connect_invariant (fn : option callback) (w : world) :
  connection_invariant w -> connection_invariant (connect fn w).2.
Proof.
  intros (Htimer & Hstored & Hretry & Hdistinct & Hlistens).
  destruct (ws (w_this w)) as [h0|] eqn:Hws.
  { unfold connect, bind, this. cbn. rewrite Hws. by repeat split. }
  pose proof (recorded_timer_cancelled w Htimer) as Hcancelled.
  rewrite connect_fresh by exact Hws. cbn [snd].
  unfold connection_invariant, one_recorded_timer, only_stored_listens,
    retry_only_disconnected, listeners_distinct, stored_listens.
  cbn [w_env w_this with_trace with_sockets with_timers e_timers e_sockets ws
       retryTimeout].
  rewrite Hcancelled. split; [exact I|]. split; [|split; [done|split]].
  - intros h s Hl Hin Hopen.
    apply lookup_app_Some in Hl as [Hl|[Hlen Hl]].
    + specialize (Hstored h s Hl Hin Hopen). congruence.
    + f_equal. apply list_lookup_singleton_Some in Hl as [Hz _]. lia.
  - intros h s Hl.
    apply lookup_app_Some in Hl as [Hl|[Hlen Hl]]; [by eapply Hdistinct|].
    apply list_lookup_singleton_Some in Hl as [_ <-].
    apply connect_listeners_distinct.
  - intros h [= <-]. eexists. split; [apply lookup_last|].
    split; [left | discriminate].
Qed.

Lemma remove_listener_distinct (type : string) (l : listener) ls :
  NoDup ls -> NoDup (remove_listener type l ls).
Proof. rewrite !NoDup_ListNoDup. apply List.NoDup_filter. Qed.

Lemma disconnect_invariant (w : world) :
  connection_invariant w -> connection_invariant (disconnect w).2.
Proof.
  intros (Htimer & Hstored & Hretry & Hdistinct & _).
  pose proof (recorded_timer_cancelled w Htimer) as Hcancelled.
  revert Htimer Hstored Hretry Hdistinct Hcancelled.
  open_world w.
  unfold connection_invariant, one_recorded_timer, only_stored_listens,
    retry_only_disconnected, listeners_distinct, stored_listens.
  cbn [w_env w_this e_timers e_sockets ws retryTimeout].
  intros Htimer Hstored Hretry Hdistinct Hcancelled.
  destruct wsx as [h0|], rt as [t|]; eval_M; rewrite ?Hcancelled.
  all: repeat split; try done.
  all: try (intros h s Hl Hin Hopen; specialize (Hstored h s Hl Hin Hopen);
            discriminate).
  all: try (intros h s Hl; by eapply Hdistinct).
  all: intros h s Hl.
  all: destruct (decide (h0 = h)) as [->|Hne];
    [ rewrite !list_lookup_alter_eq in Hl;
      destruct (socks !! h) as [s0|] eqn:Hs0; [|discriminate];
      injection Hl as <-
    | rewrite !list_lookup_alter_ne in Hl by exact Hne ].
  all: try (intros Hin Hopen; specialize (Hstored h s Hl Hin Hopen); congruence).
  all: try (by eapply Hdistinct).
  all: rewrite closing_listeners; cbn [with_listeners s_listeners].
  all: try (intros Hin; exfalso; revert Hin;
            do 2 apply remove_listener_keeps_out; apply remove_listener_gone).
  all: do 3 apply remove_listener_distinct; by eapply Hdistinct.
Qed.

Lemma altered_socket (f : socket -> socket) (h h' : sock) (socks : list socket)
    (s' : socket) :
  alter f h socks !! h' = Some s' ->
  (h' = h /\ exists s, socks !! h = Some s /\ s' = f s) \/
  (h' <> h /\ socks !! h' = Some s').
Proof.
  destruct (decide (h = h')) as [->|Hne].
  - rewrite list_lookup_alter_eq. destruct (socks !! h') as [s|]; [|discriminate].
    intros [= <-]. left. eauto.
  - rewrite list_lookup_alter_ne by exact Hne. intros Hl. right. split; congruence.
Qed.

(** A change of state of one socket that keeps its listeners, does not
    bring a closed socket back and does not close the stored connection. *)
Lemma restate_invariant (w : world) (h : sock) (f : socket -> socket) :
  (forall s, s_listeners (f s) = s_listeners s) ->
  (forall s, e_sockets (w_env w) !! h = Some s ->
             s_readyState (f s) <> CLOSED -> s_readyState s <> CLOSED) ->
  (forall s, e_sockets (w_env w) !! h = Some s -> ws (w_this w) = Some h ->
             s_readyState (f s) <> CLOSED) ->
  connection_invariant w ->
  connection_invariant
    {| w_this := w_this w;
       w_env := with_sockets (alter f h (e_sockets (w_env w))) (w_env w) |}.
Proof.
  intros Hls Hst Hkeep (Htimer & Hstored & Hretry & Hdistinct & Hlistens).
  unfold connection_invariant, one_recorded_timer, only_stored_listens,
    retry_only_disconnected, listeners_distinct, stored_listens.
  cbn [w_env w_this with_sockets e_timers e_sockets].
  split; [exact Htimer|]. split; [|split; [exact Hretry|split]].
  - intros h' s' Hl Hin Hopen.
    apply altered_socket in Hl as [(-> & s & Hl & ->)|(Hne & Hl)].
    + rewrite Hls in Hin. eapply Hstored; eauto.
    + eapply Hstored; eauto.
  - intros h' s' Hl.
    apply altered_socket in Hl as [(-> & s & Hl & ->)|(Hne & Hl)].
    + rewrite Hls. by eapply Hdistinct.
    + by eapply Hdistinct.
  - intros h' Hws. destruct (Hlistens h' Hws) as (s & Hl & Hin & Hopen).
    destruct (decide (h = h')) as [->|Hne].
    + exists (f s). rewrite list_lookup_alter_eq, Hl, Hls. eauto.
    + exists s. by rewrite list_lookup_alter_ne.
Qed.

Lemma restate_distinct (w : world) (h : sock) (f : socket -> socket) :
  (forall s, s_listeners (f s) = s_listeners s) ->
  listeners_distinct w ->
  listeners_distinct
    {| w_this := w_this w;
       w_env := with_sockets (alter f h (e_sockets (w_env w))) (w_env w) |}.
Proof.
  intros Hls Hdistinct h' s' Hl. cbn in Hl.
  apply altered_socket in Hl as [(-> & s & Hl & ->)|(Hne & Hl)].
  - rewrite Hls. by eapply Hdistinct.
  - by eapply Hdistinct.
Qed.

(** [onClose] where no timer is pending and no socket listens any more. *)
Lemma onClose_invariant (code : Z) (reason : string) (w : world) :
  e_timers (w_env w) = [] ->
  (forall h s, e_sockets (w_env w) !! h = Some s ->
               ("close", onClose_fn) ∈ s_listeners s ->
               s_readyState s = CLOSED) ->
  listeners_distinct w ->
  connection_invariant (onClose code reason w).2.
Proof.
  open_world w.
  unfold connection_invariant, one_recorded_timer, only_stored_listens,
    retry_only_disconnected, listeners_distinct, stored_listens.
  cbn [w_env w_this e_timers e_sockets]. intros -> Hnone Hdistinct.
  destruct (code =? 1000) eqn:Hcode, ar, onD; eval_M; rewrite ?Hcode; cbn.
  all: repeat split; try done.
  all: intros h s Hl Hin Hopen; by specialize (Hnone h s Hl Hin).
Qed.

Lemma dispatch_invariant (h : sock) (ev : ws_event) (w : world) :
  enabled (transport h ev) w ->
  connection_invariant w -> connection_invariant (dispatch h ev w).2.
Proof.
  intros Hen Hinv. cbn [enabled] in Hen.
  destruct (e_sockets (w_env w) !! h) as [s|] eqn:Hs; [|contradiction].
  destruct ev as [|code reason|error|data].
  - (* open *)
    eapply connection_invariant_state;
      [|apply (restate_invariant w h (state_after open_event))]; try done.
    + unfold dispatch. unfold bind at 1. cbn [update_socket set_env].
      match goal with |- connection_state (?m ?w1).2 = _ =>
        assert (Hk : keeps_connection m); [|apply Hk]
      end.
      pose proof on_open_keeps_connection.
      apply keeps_connection_bind; [solve_conn|]. intros e. cbv zeta.
      apply keeps_connection_forEach. intros [type l].
      apply keeps_connection_when, keeps_connection_uncaught.
      destruct l; cbn; solve_conn.
    + intros s0 Hs0 _. rewrite Hs in Hs0. injection Hs0 as <-. by rewrite Hen.
  - (* close *)
    destruct (decide (("close", onClose_fn) ∈ s_listeners s)) as [Hin|Hout].
    + destruct Hinv as (Htimer & Hstored & Hretry & Hdistinct & Hlistens).
      rewrite (dispatch_close_listening h s) by eauto. cbn [snd].
      pose proof (Hstored h s Hs Hin Hen) as Hws.
      apply onClose_invariant.
      * cbn. destruct (e_timers (w_env w)) eqn:Ht; [reflexivity|].
        unfold retry_only_disconnected in Hretry. rewrite Ht in Hretry.
        rewrite Hretry in Hws by done. discriminate.
      * cbn. intros h' s' Hl Hin'.
        apply altered_socket in Hl as [(-> & s0 & Hl & ->)|(Hne & Hl)];
          [reflexivity|].
        destruct (decide (s_readyState s' = CLOSED)) as [|Hopen]; [assumption|].
        specialize (Hstored h' s' Hl Hin' Hopen). congruence.
      * by apply (restate_distinct w h (state_after (close_event code reason))).
    + rewrite dispatch_close_unheard by (intros s0; rewrite Hs; by intros [= <-]).
      cbn [snd].
      apply (restate_invariant w h (with_readyState CLOSED)); try done.
      intros s0 Hs0 Hws. exfalso. apply Hout.
      destruct Hinv as (_ & _ & _ & _ & Hlistens).
      destruct (Hlistens h Hws) as (s1 & Hs1 & Hin & _). congruence.
  - (* error *)
    eapply connection_invariant_state;
      [|apply (restate_invariant w h (state_after (error_event error)))];
      try done.
    2: { intros s0 Hs0 Hws. destruct Hinv as (_ & _ & _ & _ & Hlistens).
         destruct (Hlistens h Hws) as (s1 & Hs1 & _ & Hopen).
         cbn. congruence. }
    unfold dispatch. unfold bind at 1. cbn [update_socket set_env].
    match goal with |- connection_state (?m ?w1).2 = _ =>
      assert (Hk : keeps_connection m); [|apply Hk]
    end.
    pose proof onError_keeps_connection.
    apply keeps_connection_bind; [solve_conn|]. intros e. cbv zeta.
    apply keeps_connection_forEach. intros [type l].
    apply keeps_connection_when, keeps_connection_uncaught.
    destruct l; cbn; solve_conn.
  - (* message *)
    eapply connection_invariant_state;
      [|apply (restate_invariant w h (state_after (message_event data)))];
      try done.
    2: { intros s0 Hs0 Hws. destruct Hinv as (_ & _ & _ & _ & Hlistens).
         destruct (Hlistens h Hws) as (s1 & Hs1 & _ & Hopen).
         cbn. congruence. }
    unfold dispatch. unfold bind at 1. cbn [update_socket set_env].
    match goal with |- connection_state (?m ?w1).2 = _ =>
      assert (Hk : keeps_connection m); [|apply Hk]
    end.
    pose proof onMessage_keeps_connection.
    apply keeps_connection_bind; [solve_conn|]. intros e. cbv zeta.
    apply keeps_connection_forEach. intros [type l].
    apply keeps_connection_when, keeps_connection_uncaught.
    destruct l; cbn; solve_conn.
Qed.

Lemma uncaught_connection_state (m : M unit) (w : world) :
  connection_state (uncaught m w).2 = connection_state (m w).2.
Proof. unfold uncaught. by destruct (m w) as [[[]|x] w1]. Qed.

Lemma fire_invariant (t : timer_id) (w : world) :
  connection_invariant w -> connection_invariant (fire t w).2.
Proof.
  intros Hinv. unfold fire. unfold bind at 1. cbn [environment].
  destruct (List.find _ _) as [x|] eqn:Hfind; [|exact Hinv].
  unfold bind. cbn [set_env]. destruct (t_fn x).
  eapply connection_invariant_state; [apply uncaught_connection_state|].
  apply connect_invariant.
  destruct Hinv as (Htimer & Hstored & Hretry & Hdistinct & Hlistens).
  apply List.find_some in Hfind as [Hin Hid]. apply Pos.eqb_eq in Hid.
  unfold connection_invariant, one_recorded_timer, only_stored_listens,
    retry_only_disconnected, listeners_distinct, stored_listens in *.
  cbn [w_env w_this with_timers e_timers e_sockets].
  destruct (e_timers (w_env w)) as [|y [|z ts]]; [destruct Hin| |contradiction].
  destruct Hin as [->|[]]. unfold cancel. cbn. rewrite Hid, Pos.eqb_refl. cbn.
  by repeat split.
Qed.

Lemma constructor_invariant cfg e c e' :
  e_sockets e = [] -> e_timers e = [] ->
  constructor cfg e = (Ok c, e') ->
  connection_invariant {| w_this := c; w_env := e' |}.
Proof.
  intros Hs Ht. unfold constructor.
  set (w0 := {| w_this := _; w_env := e |}).
  assert (Hinv : connection_invariant w0).
  { unfold connection_invariant, one_recorded_timer, only_stored_listens,
      retry_only_disconnected, listeners_distinct, stored_listens.
    cbn. rewrite Hs, Ht. repeat split; try done.
    all: intros h s Hl; by rewrite lookup_nil in Hl. }
  destruct (negb (e_WebSocket_defined e)); [discriminate|].
  destruct (autoConnect (config (w_this w0))).
  - pose proof (connect_invariant None w0 Hinv) as Hc.
    destruct (connect None w0) as [[[]|x] [c1 e1]]; [|discriminate].
    by intros [= <- <-].
  - by intros [= <- <-].
Qed.

(** The invariant holds in every world a client can be in. *)
Lemma reachable_invariant (w : world) : reachable w -> connection_invariant w.
Proof.
  induction 1 as [cfg e c e' Hs Ht Hnew|a w Hreach IH Hen].
  - by eapply constructor_invariant.
  - destruct a as [fn| |m|m| |h ev|t|r eventName args]; cbn [perform].
    + by apply connect_invariant.
    + by apply disconnect_invariant.
    + eapply connection_invariant_state; [apply instrument_keeps_connection|done].
    + eapply connection_invariant_state; [apply run_keeps_connection|done].
    + eapply connection_invariant_state; [apply getMocha_keeps_connection|done].
    + by apply dispatch_invariant.
    + by apply fire_invariant.
    + eapply connection_invariant_state;
        [apply runner_emit_keeps_connection|done].
Qed.

(** In a reachable world at most one retry is pending, it is the recorded
    one, and none is while a connection is stored. *)
Lemma reachable_timers (w : world) :
  reachable w ->
  (forall x, x ∈ e_timers (w_env w) -> retryTimeout (w_this w) = Some (t_id x)) /\
  (length (e_timers (w_env w)) <= 1)%nat /\
  (forall h, ws (w_this w) = Some h -> e_timers (w_env w) = []).
Proof.
  intros Hreach.
  destruct (reachable_invariant w Hreach) as (Htimer & _ & Hretry & _).
  unfold one_recorded_timer, retry_only_disconnected in Htimer, Hretry.
  destruct (e_timers (w_env w)) as [|y [|z ts]]; [| |contradiction].
  - repeat split; [intros x Hx; by apply elem_of_nil in Hx | cbn; lia].
  - repeat split.
    + intros x Hx. apply list_elem_of_singleton in Hx. by subst.
    + cbn; lia.
    + intros h Hws. rewrite Hretry in Hws by done. discriminate.
Qed.

(** In a reachable world the stored connection has not closed, carries
    [onClose] once, and no retry is pending beside it. *)
Lemma reachable_connected (w : world) (h : sock) :
  reachable w -> ws (w_this w) = Some h ->
  exists s, e_sockets (w_env w) !! h = Some s /\
            NoDup (s_listeners s) /\
            ("close", onClose_fn) ∈ s_listeners s /\
            s_readyState s <> CLOSED /\
            e_timers (w_env w) = [].
Proof.
  intros Hreach Hws.
  destruct (reachable_invariant w Hreach)
    as (_ & _ & Hretry & Hdistinct & Hlistens).
  destruct (Hlistens h Hws) as (s & Hs & Hin & Hopen).
  exists s. repeat split; try done; [by eapply Hdistinct|].
  destruct (e_timers (w_env w)) eqn:Ht; [reflexivity|].
  unfold retry_only_disconnected in Hretry. rewrite Ht in Hretry.
  rewrite Hretry in Hws by done. discriminate.
Qed.

(** What [onClose] does to the stored connection and to the timer queue. *)
Lemma onClose_schedules (code : Z) (reason : string) (w : world) :
  let cfg := config (w_this w) in
  let w' := (onClose code reason w).2 in
  ws (w_this w') = None /\
  (code <> 1000 -> autoRetry cfg = true ->
     e_timers (w_env w') =
       e_timers (w_env w) ++
       [Timer (e_next_timer (w_env w)) reconnect_arrow (retryDelay cfg)]) /\
  (code = 1000 \/ autoRetry cfg = false ->
     e_timers (w_env w') = e_timers (w_env w)).
Proof.
  statement_only. open_world w. cbv zeta. unfold onClose, bind, when.
  cbn [w_this w_env config autoRetry retryDelay e_next_timer e_timers].
  split; [|split].
  - destruct (code =? 1000), ar, onD; reflexivity.
  - intros Hcode ->. apply Z.eqb_neq in Hcode. rewrite Hcode.
    destruct onD; reflexivity.
  - intros [->| ->]; [|destruct (code =? 1000)]; destruct onD; reflexivity.
Qed.

(** After [disconnect] no connection is stored, and no timer is pending
    when the recorded one was the only one. *)
Lemma disconnect_forgets (w : world) :
  ws (w_this (disconnect w).2) = None /\
  ((forall x, x ∈ e_timers (w_env w) -> retryTimeout (w_this w) = Some (t_id x)) ->
   e_timers (w_env (disconnect w).2) = []).
Proof.
  statement_only. open_world w.
  destruct wsx as [h|], rt as [t|]; eval_M.
  all: split; [reflexivity|].
  all: try (intros H; apply cancel_all; intros x Hx; specialize (H x Hx); congruence).
  all: intros H; destruct tms as [|x ?]; [reflexivity|];
    specialize (H x ltac:(left)); discriminate.
Qed.

(** ** Reconnection *)

(** C1. What a close event schedules. A close event on a connection that
    carries [onClose] is handled by [onClose], which never throws. When the
    code is not 1000 and [autoRetry] is set, the timer queue grows by exactly
    one timer, set for [retryDelay] milliseconds, recorded in [retryTimeout],
    and when it comes due it opens exactly one new connection to the
    configured URL. When the code is 1000 or [autoRetry] is off, the timer
    queue and [retryTimeout] are left alone and [setTimeout] is not called.
    In every world a client can be in, the transport may close the stored
    connection, the client then stores no connection, and the timers pending
    afterwards are exactly that one timer in the first case and none in the
    second. *)
Theorem onClose_reconnect_policy (code : Z) (reason : string) (w : world) :
  let cfg := config (w_this w) in
  let t := e_next_timer (w_env w) in
  let w' := (onClose code reason w).2 in
  (forall h s,
     e_sockets (w_env w) !! h = Some s ->
     NoDup (s_listeners s) ->
     ("close", onClose_fn) ∈ s_listeners s ->
     dispatch h (close_event code reason) w =
       (Ok tt,
        (onClose code reason
           {| w_this := w_this w;
              w_env := with_sockets
                         (alter (state_after (close_event code reason)) h
                         (e_sockets (w_env w)))
                         (w_env w) |}).2)) /\
  (onClose code reason w).1 = Ok tt /\
  (code <> 1000 -> autoRetry cfg = true ->
     e_timers (w_env w') =
       e_timers (w_env w) ++ [Timer t reconnect_arrow (retryDelay cfg)] /\
     List.filter is_setTimeout (added w w') =
       [Called_setTimeout t reconnect_arrow (retryDelay cfg)] /\
     retryTimeout (w_this w') = Some t /\
     List.filter is_WebSocket_new (added w' (fire t w').2) =
       [WebSocket_new (length (e_sockets (w_env w))) (url cfg)
          ("mocha-remote-" +:+ id_text (id cfg))]) /\
  (code = 1000 \/ autoRetry cfg = false ->
     e_timers (w_env w') = e_timers (w_env w) /\
     List.filter is_setTimeout (added w w') = [] /\
     retryTimeout (w_this w') = retryTimeout (w_this w)) /\
  (reachable w -> forall h, ws (w_this w) = Some h ->
     let closed := (dispatch h (close_event code reason) w).2 in
     enabled (transport h (close_event code reason)) w /\
     ws (w_this closed) = None /\
     (code <> 1000 -> autoRetry cfg = true ->
        e_timers (w_env closed) = [Timer t reconnect_arrow (retryDelay cfg)]) /\
     (code = 1000 \/ autoRetry cfg = false -> e_timers (w_env closed) = [])).
Proof.
  cbv zeta. split; [intros h s; apply dispatch_close_listening|].
  split; [apply onClose_returns|].
  rewrite (and_assoc _ _ (reachable w -> _)), (and_comm _ (reachable w -> _)).
  split.
  { intros Hreach h Hws.
    destruct (reachable_connected w h Hreach Hws)
      as (s & Hs & Hdistinct & Hin & Hopen & Hnone).
    split; [cbn [enabled]; by rewrite Hs|].
    rewrite (dispatch_close_listening h s) by assumption. cbn [snd].
    match goal with |- context [onClose code reason ?w1] =>
      destruct (onClose_schedules code reason w1) as (Hws1 & Hretry & Hquiet)
    end.
    cbn [w_this w_env with_sockets e_timers e_next_timer] in Hretry, Hquiet.
    rewrite Hnone in Hretry, Hquiet. by repeat split. }
  open_world w. unfold onClose, bind, when.
  cbn [w_this w_env config autoRetry retryDelay url id e_next_timer e_timers
       e_sockets retryTimeout].
  split.
  - intros Hcode Hretry. subst ar.
    apply Z.eqb_neq in Hcode. rewrite Hcode.
    destruct (find_timer_last nt (Timer nt reconnect_arrow rd) tms eq_refl)
      as [[yid [] yd] Hy].
    destruct onD as [f|]; cbn; (split; [reflexivity|]);
      (split; [trace_delta; reflexivity|]); (split; [reflexivity|]);
      unfold fire; cbn; rewrite Hy; cbn; trace_delta.
    all: reflexivity.
  - intros Hor.
    destruct Hor as [->| ->]; [|destruct (code =? 1000)];
      destruct onD as [f|]; cbn;
      (split; [reflexivity|]); (split; [trace_delta|]); reflexivity.
Qed.

(** ** Disconnecting *)

(** C3, as the code has it. [disconnect] never throws; a second call
    leaves the client and every collaborator as the first call left them,
    and neither call invokes a callback of the user. After the first call
    the stored connection is forgotten and the timer recorded in
    [retryTimeout] is no longer pending, so no timer is when the recorded
    one was the only one, as it is in every world a client can be in. On
    the connection that was stored, the close,
    error and message listeners are removed, in that order, and only then
    is it closed; the open listener that [connect] registered is not
    removed. *)
Theorem disconnect_idempotent (w : world) :
  let once := (disconnect w).2 in
  let twice := (disconnect once).2 in
  (disconnect w).1 = Ok tt /\ (disconnect once).1 = Ok tt /\
  w_this twice = w_this once /\
  collaborators (w_env twice) = collaborators (w_env once) /\
  notifications (added w once) = [] /\
  notifications (added w twice) = [] /\
  ws (w_this once) = None /\
  (forall t, retryTimeout (w_this w) = Some t ->
     forall x, x ∈ e_timers (w_env once) -> t_id x <> t) /\
  ((forall x, x ∈ e_timers (w_env w) -> retryTimeout (w_this w) = Some (t_id x)) ->
     e_timers (w_env once) = []) /\
  (reachable w -> e_timers (w_env once) = []) /\
  (forall h s, ws (w_this w) = Some h -> e_sockets (w_env w) !! h = Some s ->
     exists s', e_sockets (w_env once) !! h = Some s' /\
       (("close", onClose_fn) ∉ s_listeners s') /\
       (("error", onError_fn) ∉ s_listeners s') /\
       (("message", onMessage_fn) ∉ s_listeners s') /\
       (forall fn, ("open", open_arrow fn) ∈ s_listeners s ->
                   ("open", open_arrow fn) ∈ s_listeners s') /\
       s_readyState s' = s_readyState (closing s) /\
       added w once =
         match retryTimeout (w_this w) with
         | Some t => [Called_clearTimeout t]
         | None => []
         end ++
         [Debug Disconnecting_from_server;
          WebSocket_removeEventListener h "close" onClose_fn;
          WebSocket_removeEventListener h "error" onError_fn;
          WebSocket_removeEventListener h "message" onMessage_fn;
          WebSocket_close h]).
Proof.
  pose proof (fun Hreach => proj1 (reachable_timers w Hreach)) as Hrec.
  revert Hrec. open_world w. cbv zeta.
  cbn [w_this w_env e_timers retryTimeout]. intros Hrec.
  destruct wsx as [h|], rt as [t|]; eval_M.
  all: repeat match goal with |- _ /\ _ => split end.
  all: try reflexivity.
  all: try (rewrite cancel_idempotent; reflexivity).
  all: try (trace_delta; reflexivity).
  all: try (intros ? [= <-] x Hx; eapply cancel_not_pending; eassumption).
  all: try (intros Hreach; specialize (Hrec Hreach); revert Hrec).
  all: try (intros H; apply cancel_all; intros x Hx; specialize (H x Hx); congruence).
  all: try discriminate.
  all: try (intros H; destruct tms as [|x ?]; [reflexivity|];
            specialize (H x ltac:(left)); discriminate).
  all: intros h' s [= <-] Hs.
  all: eexists; split;
    [rewrite !list_lookup_alter_eq, Hs; reflexivity|].
  all: pose proof (disconnect_socket s) as (Hc & He & Hm & Ho & Hr).
  all: repeat match goal with |- _ /\ _ => split end; try assumption.
  all: trace_delta; reflexivity.
Qed.

(** C3, as stated, fails: after [disconnect] the connection that was stored
    still carries the open listener. *)
Lemma disconnect_leaves_open_listener :
  ~ all_listeners_unregistered connected_world (disconnect connected_world).2.
Proof.
  intros H. specialize (H 0%nat eq_refl). vm_compute in H. discriminate.
Qed.

(** ** A deliberate disconnect is silent *)

(** C10. A deliberate [disconnect] calls neither [onDisconnected] nor
    [setTimeout], and the close event that the transport then fires on the
    closed connection reaches no code of the client: the fields of the
    client, the timer queue and the trace stay as they were. In every world
    a client can be in, the same holds of a close event on any socket that
    has not closed yet, and no timer is pending. The close
    listener is removed before the connection is closed. [onDisconnected]
    is called by [onClose], with the code and the reason of the close event,
    as the last thing it does, after any [setTimeout]; no other method,
    timer or event of another type calls it. *)
Theorem deliberate_disconnect_is_silent (w : world) :
  let w' := (disconnect w).2 in
  Forall not_onDisconnected (added w w') /\
  List.filter is_setTimeout (added w w') = [] /\
  (forall h code reason, ws (w_this w) = Some h ->
     let w'' := (dispatch h (close_event code reason) w').2 in
     w_this w'' = w_this w' /\
     e_timers (w_env w'') = e_timers (w_env w') /\
     e_trace (w_env w'') = e_trace (w_env w')) /\
  (reachable w -> forall h code reason,
     enabled (transport h (close_event code reason)) w' ->
     let w'' := (dispatch h (close_event code reason) w').2 in
     w_this w'' = w_this w' /\
     e_timers (w_env w'') = [] /\
     e_trace (w_env w'') = e_trace (w_env w')) /\
  (forall h, ws (w_this w) = Some h ->
     exists pre mid,
       added w w' =
         pre ++ [WebSocket_removeEventListener h "close" onClose_fn] ++
         mid ++ [WebSocket_close h]) /\
  (forall code reason f, onDisconnected (config (w_this w)) = Some f ->
     exists pre,
       added w (onClose code reason w).2 =
         pre ++ [Call_onDisconnected f code reason] /\
       Forall not_onDisconnected pre /\
       (code <> 1000 -> autoRetry (config (w_this w)) = true ->
        Called_setTimeout (e_next_timer (w_env w)) reconnect_arrow
          (retryDelay (config (w_this w))) ∈ pre)) /\
  (forall fn, emits not_onDisconnected (connect fn)) /\
  (forall m, emits not_onDisconnected (instrument m)) /\
  (forall m, emits not_onDisconnected (run m)) /\
  emits not_onDisconnected getMocha /\
  (forall eventName args, emits not_onDisconnected (send eventName args)) /\
  (forall t, emits not_onDisconnected (fire t)) /\
  (forall h ev, (forall code reason, ev <> close_event code reason) ->
     emits not_onDisconnected (dispatch h ev)).
Proof.
  cbv zeta.
  split; [apply emits_added, disconnect_emits|].
  split.
  { open_world w. destruct wsx as [h|], rt as [t|]; eval_M; trace_delta;
      reflexivity. }
  split.
  { intros h code reason Hws.
    rewrite dispatch_close_unheard by (apply disconnect_sockets, Hws).
    cbn. auto. }
  split.
  { intros Hreach h code reason Hen.
    assert (Hreach' : reachable (disconnect w).2)
      by exact (reachable_step call_disconnect w Hreach I).
    destruct (reachable_invariant _ Hreach') as (_ & Hstored & _).
    destruct (disconnect_forgets w) as (Hws & Hnone).
    specialize (Hnone (proj1 (reachable_timers w Hreach))).
    cbn [enabled] in Hen.
    destruct (e_sockets (w_env (disconnect w).2) !! h) as [s|] eqn:Hs;
      [|contradiction].
    rewrite dispatch_close_unheard.
    2: { intros s0 Hs0 Hin. rewrite Hs in Hs0. injection Hs0 as <-.
         specialize (Hstored h s Hs Hin Hen). congruence. }
    cbn [snd w_this w_env with_sockets e_timers e_trace]. auto. }
  split.
  { open_world w. intros h Hws. cbn in Hws. subst wsx.
    destruct rt as [t|]; eval_M; trace_delta.
    - exists [Called_clearTimeout t; Debug Disconnecting_from_server],
        [WebSocket_removeEventListener h "error" onError_fn;
         WebSocket_removeEventListener h "message" onMessage_fn].
      reflexivity.
    - exists [Debug Disconnecting_from_server],
        [WebSocket_removeEventListener h "error" onError_fn;
         WebSocket_removeEventListener h "message" onMessage_fn].
      reflexivity. }
  split.
  { open_world w. intros code reason f Hf. cbn in Hf. subst onD.
    set (line := Debug (Connection_closed
                          (if String.eqb reason EmptyString then "No reason" else reason) code)).
    destruct (code =? 1000) eqn:Hcode, ar; eval_M; rewrite ?Hcode; cbn;
      trace_delta; fold line.
    all: first
      [ exists [line]; split; [reflexivity|]
      | exists [line; Debug (Reconnecting_in rd);
                Called_setTimeout nt reconnect_arrow rd]; split; [reflexivity|] ].
    all: split; [repeat constructor|].
    all: intros Hne Har; try discriminate.
    + apply Z.eqb_eq in Hcode. contradiction.
    + do 2 right. left. }
  auto 10 using connect_emits, instrument_emits, run_emits, getMocha_emits,
    send_emits, fire_emits, dispatch_emits.
Qed.

(** ** The instrumentation shim *)

(** The framework's run, on an instance that carries the remote reporter. *)
Lemma Mocha_run_original_remote (m : mref) (o : mocha) (w : world) :
  e_mochas (w_env w) !! m = Some o ->
  m__reporter o = remote_reporter ->
  Mocha_run_original m w =
    (Ok (length (e_runners (w_env w))),
     {| w_this := w_this w;
        w_env :=
          with_trace (e_trace (w_env w) ++ [Mocha_run m (length (e_runners (w_env w)))])
            (with_runners
               (e_runners (w_env w) ++
                  [{| r_mocha := m;
                      r_listeners := (fun name => (name, name)) <$> MOCHA_EVENT_NAMES |}])
               (w_env w)) |}).
Proof.
  open_world w. cbn [w_env w_this e_mochas e_runners e_trace]. intros Hm Hcls.
  unfold Mocha_run_original. eval_M. rewrite Hm, Hcls. cbv [construct_reporter MOCHA_EVENT_NAMES forEach runner_addListener].
  eval_M. rewrite !alter_last. reflexivity.
Qed.

Lemma call_originalRun_lookup (m : mref) (o : mocha) (w : world) :
  e_mochas (w_env w) !! m = Some o ->
  call_originalRun m w =
    match m_originalRun o with
    | Some f => call_run_entry f m w
    | None => (Throw (TypeError "mocha.originalRun is not a function"), w)
    end.
Proof.
  intros Hm. unfold call_originalRun, bind, environment. rewrite Hm.
  destruct (m_originalRun o); reflexivity.
Qed.

Lemma direct_run_lookup (m : mref) (o : mocha) (w : world) :
  e_mochas (w_env w) !! m = Some o ->
  direct_run m w = call_run_entry (m_run o) m w.
Proof. intros Hm. unfold direct_run, bind, environment. by rewrite Hm. Qed.

(** What [instrument] does. *)
Lemma instrument_eq (m : mref) (w : world) :
  instrument m w =
    (Ok m,
     {| w_this := {| config := config (w_this w); ws := ws (w_this w);
                     instrumentedMocha := Some m;
                     retryTimeout := retryTimeout (w_this w) |};
        w_env :=
          with_trace
            (e_trace (w_env w) ++
               match onInstrumented (config (w_this w)) with
               | Some f => [Call_onInstrumented f m]
               | None => []
               end)
            (with_mochas (alter instrumented m (e_mochas (w_env w))) (w_env w)) |}).
Proof.
  open_world w. destruct onI; eval_M; rewrite ?app_nil_r; reflexivity.
Qed.

(** [run] on an instance whose [originalRun] is the framework's run. *)
Lemma run_original (m : mref) (o : mocha) (w : world) :
  e_mochas (w_env w) !! m = Some o ->
  m_originalRun o = Some Mocha_prototype_run ->
  let r := length (e_runners (w_env w)) in
  run m w =
    (Ok r,
     {| w_this := w_this w;
        w_env :=
          with_trace
            (e_trace (w_env w) ++
               [Set_reporter m remote_reporter; Mocha_run m r] ++
               match onRunning (config (w_this w)) with
               | Some f => [Call_onRunning f r]
               | None => []
               end)
            (with_runners
               (e_runners (w_env w) ++
                  [{| r_mocha := m;
                      r_listeners := (fun name => (name, name)) <$> MOCHA_EVENT_NAMES |}])
               (with_mochas
                  (alter (with__reporter remote_reporter) m (e_mochas (w_env w)))
                  (w_env w))) |}).
Proof.
  open_world w. cbn [w_env w_this e_mochas e_runners e_trace config onRunning].
  intros Hm Horig. cbv zeta. unfold run. eval_M.
  erewrite call_originalRun_lookup
    by (cbn [w_env e_mochas]; rewrite list_lookup_alter_eq, Hm; reflexivity).
  cbn [with__reporter m_originalRun]. rewrite Horig. cbn [call_run_entry].
  erewrite Mocha_run_original_remote
    by (cbn [w_env e_mochas]; first [rewrite list_lookup_alter_eq, Hm; reflexivity | reflexivity]).
  destruct onR; eval_M; rewrite <- ?app_assoc, ?app_nil_r; reflexivity.
Qed.

(** [run] on an instance whose [originalRun] is the guard. *)
Lemma run_guarded (m : mref) (o : mocha) (w : world) :
  e_mochas (w_env w) !! m = Some o ->
  m_originalRun o = Some instrumented_run ->
  run m w =
    (Throw (Error guard_message),
     {| w_this := w_this w;
        w_env :=
          with_trace (e_trace (w_env w) ++ [Set_reporter m remote_reporter])
            (with_mochas
               (alter (with__reporter remote_reporter) m (e_mochas (w_env w)))
               (w_env w)) |}).
Proof.
  open_world w. cbn [w_env w_this e_mochas e_runners e_trace config onRunning].
  intros Hm Horig. unfold run. eval_M.
  erewrite call_originalRun_lookup
    by (cbn [w_env e_mochas]; rewrite list_lookup_alter_eq, Hm; reflexivity).
  cbn [with__reporter m_originalRun]. rewrite Horig. reflexivity.
Qed.


(** C6 fails on the code: instrumenting an instance a second time stores
    the guard itself in [originalRun], so a later [run] through the shim
    throws the guard's error and the framework's run never executes. *)
Theorem reinstrument_loses_original_run (m : mref) (o : mocha) (w : world) :
  e_mochas (w_env w) !! m = Some o ->
  m_run o = Mocha_prototype_run ->
  let w2 := (instrument m (instrument m w).2).2 in
  (instrument m (instrument m w).2).1 = Ok m /\
  instrumentedMocha (w_this w2) = Some m /\
  m_originalRun <$> e_mochas (w_env w2) !! m = Some (Some instrumented_run) /\
  (run m w2).1 = Throw (Error guard_message) /\
  List.filter is_Mocha_run (added w2 (run m w2).2) = [].
Proof.
  intros Hm Hrun. cbv zeta. rewrite !instrument_eq. cbn [fst snd].
  set (w2 := {| w_this := _; w_env := _ |}).
  assert (Hm2 : e_mochas (w_env w2) !! m = Some (instrumented (instrumented o))).
  { cbn. by rewrite !list_lookup_alter_eq, Hm. }
  rewrite (run_guarded m _ w2 Hm2 eq_refl), Hm2. cbn [fst snd].
  repeat match goal with |- _ /\ _ => split end; try reflexivity.
  erewrite added_app by (cbn; reflexivity). reflexivity.
Qed.

(** ** Obtaining an instance, and run requests *)

Lemma keeps_this_ret {A} (a : A) : keeps_this (ret a).
Proof. intros w. reflexivity. Qed.

Lemma keeps_this_throw {A} (x : exn) : keeps_this (@throw A x).
Proof. intros w. reflexivity. Qed.

Lemma keeps_this_bind {A B} (m : M A) (k : A -> M B) :
  keeps_this m -> (forall a, keeps_this (k a)) -> keeps_this (bind m k).
Proof.
  intros Hm Hk w. unfold bind. specialize (Hm w).
  destruct (m w) as [[a|x] w1]; cbn in *; [|assumption].
  by rewrite Hk.
Qed.

Lemma keeps_this_this : keeps_this this.
Proof. intros w. reflexivity. Qed.

Lemma keeps_this_environment : keeps_this environment.
Proof. intros w. reflexivity. Qed.

Lemma keeps_this_set_env f : keeps_this (set_env f).
Proof. intros w. reflexivity. Qed.

Lemma keeps_this_when b m : keeps_this m -> keeps_this (when b m).
Proof. destruct b; cbn; auto using keeps_this_ret. Qed.

Lemma keeps_this_notify f ev : keeps_this (notify f ev).
Proof. destruct f; cbn; intros w; reflexivity. Qed.

Lemma keeps_this_forEach {A} (xs : list A) (f : A -> M unit) :
  (forall x, keeps_this (f x)) -> keeps_this (forEach xs f).
Proof.
  intros H. induction xs; cbn; auto using keeps_this_ret, keeps_this_bind.
Qed.

Create HintDb keeps discriminated.
#[local] Hint Resolve keeps_this_ret keeps_this_throw keeps_this_this
  keeps_this_environment keeps_this_set_env keeps_this_when keeps_this_notify
  keeps_this_forEach : keeps.
#[local] Hint Extern 2 (keeps_this (bind _ _)) =>
  apply keeps_this_bind; [|intros] : keeps.
#[local] Hint Extern 3 (keeps_this (match ?x with _ => _ end)) => destruct x : keeps.

Lemma run_keeps_this m : keeps_this (run m).
Proof.
  unfold run, call_originalRun, call_run_entry, Mocha_run_original,
    construct_reporter.
  unfold_primitives. unfold emit. auto 30 with keeps.
Qed.

(** [run] begins by installing the reporter, whatever happens next. *)
Lemma run_installs (m : mref) (w : world) :
  exists xs, e_trace (w_env (run m w).2) =
             e_trace (w_env w) ++ Set_reporter m remote_reporter :: xs.
Proof.
  assert (H : emits (fun _ => True)
                (do runner <- call_originalRun m;
                 do c <- this;
                 notify (onRunning (config c)) (fun f => Call_onRunning f runner);;
                 ret runner)).
  { unfold call_originalRun, call_run_entry, Mocha_run_original,
      construct_reporter. solve_emits. }
  unfold run. unfold bind at 1 2. cbn [update_mocha set_env emit].
  match goal with |- context [bind ?a ?b ?w] => destruct (H w) as (xs & Hxs & _) end.
  exists xs. rewrite Hxs. cbn. by rewrite <- app_assoc.
Qed.

Lemma getMocha_stored (m : mref) (w : world) :
  instrumentedMocha (w_this w) = Some m -> getMocha w = (Ok m, w).
Proof. open_world w. cbn. intros ->. reflexivity. Qed.

Lemma getMocha_fresh (w : world) :
  instrumentedMocha (w_this w) = None ->
  let n := length (e_mochas (w_env w)) in
  getMocha w =
    (Ok n,
     {| w_this := {| config := config (w_this w); ws := ws (w_this w);
                     instrumentedMocha := Some n;
                     retryTimeout := retryTimeout (w_this w) |};
        w_env :=
          with_trace
            (e_trace (w_env w) ++
               [made_by (config (w_this w)) n] ++
               match onInstrumented (config (w_this w)) with
               | Some f => [Call_onInstrumented f n]
               | None => []
               end)
            (with_mochas (e_mochas (w_env w) ++ [instrumented fresh_mocha])
               (w_env w)) |}).
Proof.
  open_world w. cbn [w_this instrumentedMocha]. intros ->. cbv zeta.
  unfold made_by. destruct cM, onI; eval_M;
    rewrite alter_last, <- ?app_assoc; reflexivity.
Qed.

(** The handler, once the frame is decoded and names a run. *)
Lemma onMessage_run (event_data : string) (data : json) (w : world) :
  JSON_parse event_data = Some data ->
  names_run data ->
  onMessage event_data w =
    (do mocha <- getMocha;
     set_instrumentedMocha None;;
     do _ <- run mocha;
     ret tt)
      {| w_this := w_this w;
         w_env := with_trace
                    (e_trace (w_env w) ++
                       [Debug (Received_message (Some (JString "run")))])
                    (w_env w) |}.
Proof.
  intros Hparse (ms & -> & Hname). unfold onMessage. rewrite Hparse.
  unfold get_eventName, bind at 1, ret at 1. rewrite Hname.
  reflexivity.
Qed.

Lemma is_run_names_run (data : json) (x : option json) (w w' : world) :
  get_eventName data w = (Ok x, w') -> is_run x = true -> names_run data.
Proof.
  destruct data; cbn; intros [= <- <-]; try discriminate.
  destruct (member "eventName" members) as [[]|] eqn:Hm; try discriminate.
  intros Hs. apply String.eqb_eq in Hs. subst. by exists members.
Qed.

(** The handler on any other decoded frame: at most a debug line. *)
Lemma onMessage_other (event_data : string) (data : json) (w : world) :
  JSON_parse event_data = Some data ->
  ~ names_run data ->
  exists r xs,
    onMessage event_data w =
      (r, {| w_this := w_this w;
             w_env := with_trace (e_trace (w_env w) ++ xs) (w_env w) |}) /\
    Forall is_debug xs.
Proof.
  intros Hparse Hother. unfold onMessage. rewrite Hparse.
  unfold bind at 1.
  destruct (get_eventName data w) as [[x|e] w1] eqn:Hget.
  - assert (w1 = w) as ->.
    { destruct data; cbv [get_eventName ret throw] in Hget; congruence. }
    destruct (is_run x) eqn:Hrun.
    { exfalso. eauto using is_run_names_run. }
    exists (Ok tt), [Debug (Received_message x)]. split; [|repeat constructor].
    reflexivity.
  - assert (w1 = w) as ->.
    { destruct data; cbv [get_eventName ret throw] in Hget; congruence. }
    exists (Throw e), []. split; [|constructor].
    open_world w. cbn. by rewrite app_nil_r.
Qed.

(** A run request when an instrumented instance is stored. *)
Lemma run_request_stored (event_data : string) (data : json) (m : mref) (w : world) :
  JSON_parse event_data = Some data ->
  names_run data ->
  instrumentedMocha (w_this w) = Some m ->
  exists r w',
    onMessage event_data w = (r, w') /\
    instrumentedMocha (w_this w') = None /\
    exists xs,
      e_trace (w_env w') =
        e_trace (w_env w) ++
          [Debug (Received_message (Some (JString "run")));
           Set_reporter m remote_reporter] ++ xs.
Proof.
  intros Hparse Hrun Hm. rewrite (onMessage_run _ _ _ Hparse Hrun).
  unfold bind at 1. rewrite (getMocha_stored m) by exact Hm.
  unfold bind at 1. cbn [set_instrumentedMocha set_this].
  unfold bind.
  match goal with |- context [run m ?w0] =>
    pose proof (run_keeps_this m w0) as Hthis;
    destruct (run_installs m w0) as (xs & Hxs);
    destruct (run m w0) as [[r|e] w2]
  end; cbn [fst snd ret] in *.
  all: eexists _, _; split; [reflexivity|].
  all: rewrite Hthis, Hxs; split; [reflexivity|].
  all: exists xs; cbn; by rewrite <- app_assoc.
Qed.

(** A run request when none is stored: an instance is made, instrumented
    and run. *)
Lemma run_request_fresh (event_data : string) (data : json) (w : world) :
  JSON_parse event_data = Some data ->
  names_run data ->
  instrumentedMocha (w_this w) = None ->
  let cfg := config (w_this w) in
  let n := length (e_mochas (w_env w)) in
  let r := length (e_runners (w_env w)) in
  exists w',
    onMessage event_data w = (Ok tt, w') /\
    instrumentedMocha (w_this w') = None /\
    e_mochas (w_env w') =
      e_mochas (w_env w) ++
        [with__reporter remote_reporter (instrumented fresh_mocha)] /\
    added w w' =
      [Debug (Received_message (Some (JString "run"))); made_by cfg n] ++
      match onInstrumented cfg with
      | Some f => [Call_onInstrumented f n]
      | None => []
      end ++
      [Set_reporter n remote_reporter; Mocha_run n r] ++
      match onRunning cfg with
      | Some f => [Call_onRunning f r]
      | None => []
      end.
Proof.
  intros Hparse Hrun Hnone. cbv zeta. rewrite (onMessage_run _ _ _ Hparse Hrun).
  unfold bind at 1. rewrite getMocha_fresh by exact Hnone.
  unfold bind at 1. cbn [set_instrumentedMocha set_this].
  unfold bind.
  match goal with |- context [run ?n ?w0] =>
    assert (Hm : e_mochas (w_env w0) !! n = Some (instrumented fresh_mocha))
      by (cbn; apply lookup_last);
    rewrite (run_original _ _ w0 Hm eq_refl)
  end.
  cbn [fst snd ret].
  eexists. split; [reflexivity|].
  repeat match goal with |- _ /\ _ => split end; try reflexivity.
  - cbn. apply alter_last.
  - erewrite added_app; [reflexivity|]. cbn. rewrite <- !app_assoc.
    destruct (onInstrumented _), (onRunning _); reflexivity.
Qed.

Lemma names_run_dec (data : json) : names_run data \/ ~ names_run data.
Proof.
  destruct data as [| | | |items|ms]; try (right; intros (? & [=] & _); fail).
  destruct (member "eventName" ms) as [[| | |s| |]|] eqn:Hm.
  - right; intros (? & [= <-] & ?); congruence.
  - right; intros (? & [= <-] & ?); congruence.
  - right; intros (? & [= <-] & ?); congruence.
  -
    destruct (String.eqb s "run") eqn:Hs.
    + apply String.eqb_eq in Hs. subst. left. by exists ms.
    + apply String.eqb_neq in Hs. right. intros (? & [= <-] & ?). congruence.
  - right; intros (? & [= <-] & ?); congruence.
  - right; intros (? & [= <-] & ?); congruence.
  - right. intros (? & [= <-] & ?). congruence.
Qed.


(** C8, as the code has it. A run is dispatched exactly when the decoded
    frame is an object whose [eventName] is the string "run". On any other
    decoded frame the handler changes neither the client nor a
    collaborator and adds nothing to the trace but a debug line. *)
Theorem run_dispatched_iff_eventName_run
    (event_data : string) (data : json) (w : world) :
  JSON_parse event_data = Some data ->
  let w' := (onMessage event_data w).2 in
  (run_dispatched w w' <-> names_run data) /\
  (~ names_run data ->
     w_this w' = w_this w /\
     collaborators (w_env w') = collaborators (w_env w) /\
     Forall is_debug (added w w')).
Proof.
  intros Hparse. cbv zeta.
  assert (Hother : ~ names_run data ->
     w_this (onMessage event_data w).2 = w_this w /\
     collaborators (w_env (onMessage event_data w).2) = collaborators (w_env w) /\
     Forall is_debug (added w (onMessage event_data w).2)).
  { intros Hno. destruct (onMessage_other _ _ w Hparse Hno) as (r & xs & Heq & Hxs).
    rewrite Heq. cbn [snd].
    split; [reflexivity|]. split; [destruct w as [? []]; reflexivity|].
    erewrite added_app; [exact Hxs|]. destruct w as [? []]; reflexivity. }
  split; [|exact Hother]. split.
  - intros (m & Hin). destruct (names_run_dec data) as [|Hno]; [assumption|].
    destruct (Hother Hno) as (_ & _ & Hall).
    rewrite Forall_forall in Hall. destruct (Hall _ Hin).
  - intros Hrun. destruct (instrumentedMocha (w_this w)) as [m|] eqn:Hstored.
    + destruct (run_request_stored _ _ m w Hparse Hrun Hstored)
        as (r & w' & Heq & _ & xs & Hxs).
      rewrite Heq. exists m. cbn [snd]. rewrite (added_app _ _ _ Hxs). right. left.
    + destruct (run_request_fresh _ _ w Hparse Hrun Hstored)
        as (w' & Heq & _ & _ & Hadded).
      rewrite Heq. eexists. cbn [snd]. rewrite Hadded, !elem_of_app.
      right. right. left. left.
Qed.

(** ** Construction *)

(** C9. Constructing a client throws when no WebSocket implementation is
    defined. Otherwise, when [autoConnect] is true in the configuration that
    results from spreading the argument over the defaults (as it is when the
    argument leaves it out), the new client has opened one socket to the
    configured URL, connecting, with its four listeners, and stores it; when
    [autoConnect] is false the environment is untouched and the client stores
    no connection. *)
Theorem constructor_connects_by_default (cfg : PartialConfig) (e : env) :
  let c := spread DEFAULT_CONFIG cfg in
  let h := length (e_sockets e) in
  let protocol := "mocha-remote-" +:+ id_text (id c) in
  (e_WebSocket_defined e = false ->
     constructor cfg e =
       (Throw (Error "mocha-remote-client expects a global WebSocket"), e)) /\
  (e_WebSocket_defined e = true -> autoConnect c = true ->
     exists e',
       constructor cfg e =
         (Ok {| config := c; ws := Some h; instrumentedMocha := None;
                retryTimeout := None |}, e') /\
       e_sockets e' =
         e_sockets e ++
           [{| s_url := url c; s_protocol := protocol; s_readyState := CONNECTING;
               s_listeners :=
                 [("close", onClose_fn); ("error", onError_fn);
                  ("message", onMessage_fn); ("open", open_arrow None)] |}] /\
       e_trace e' =
         e_trace e ++
           [Debug (Connecting_to (url c));
            WebSocket_new h (url c) protocol;
            WebSocket_addEventListener h "close" onClose_fn;
            WebSocket_addEventListener h "error" onError_fn;
            WebSocket_addEventListener h "message" onMessage_fn;
            WebSocket_addEventListener h "open" (open_arrow None)]) /\
  (e_WebSocket_defined e = true -> autoConnect c = false ->
     constructor cfg e =
       (Ok {| config := c; ws := None; instrumentedMocha := None;
              retryTimeout := None |}, e)) /\
  (p_autoConnect cfg = None -> autoConnect c = true).
Proof.
  cbv zeta. unfold constructor. cbn [w_this config].
  repeat split.
  - intros ->. reflexivity.
  - intros -> ->. cbn [negb]. rewrite connect_fresh by reflexivity.
    eexists. split; [reflexivity|]. split; reflexivity.
  - intros -> ->. reflexivity.
  - intros Hnone. cbn. by rewrite Hnone.
Qed.

(** ** Preparing the arguments of an outbound event *)

Lemma key_eqb_eq (k1 k2 : prop_key) : key_eqb k1 k2 = true <-> k1 = k2.
Proof.
  destruct k1, k2; cbn; try (split; [discriminate|congruence]).
  - rewrite String.eqb_eq. split; congruence.
  - rewrite Nat.eqb_eq. split; congruence.
Qed.

Lemma key_eqb_refl (k : prop_key) : key_eqb k k = true.
Proof. by apply key_eqb_eq. Qed.

Lemma key_eqb_neq (k1 k2 : prop_key) : k1 <> k2 -> key_eqb k1 k2 = false.
Proof.
  intros H. destruct (key_eqb k1 k2) eqn:E; [|reflexivity].
  by apply key_eqb_eq in E.
Qed.

Lemma lookup_define_eq (k : prop_key) (v : value) ps :
  lookup_prop k (define_prop k v ps) =
    Some {| p_value := v; p_enumerable := true |}.
Proof.
  induction ps as [|[k' p] ps IH]; cbn.
  - by rewrite key_eqb_refl.
  - destruct (key_eqb k' k) eqn:E; cbn; rewrite E; [reflexivity | apply IH].
Qed.

Lemma lookup_define_ne (k k0 : prop_key) (v : value) ps :
  k <> k0 -> lookup_prop k0 (define_prop k v ps) = lookup_prop k0 ps.
Proof.
  intros Hne. induction ps as [|[k' p] ps IH]; cbn.
  - by rewrite key_eqb_neq.
  - destruct (key_eqb k' k) eqn:E; cbn.
    + apply key_eqb_eq in E. subst k'. by rewrite key_eqb_neq.
    + destruct (key_eqb k' k0); [reflexivity | apply IH].
Qed.

(** A name listed by [getOwnPropertyNames] is an own string key, and the
    other way round. *)
Lemma getOwnPropertyNames_spec (s : string) ps :
  s ∈ getOwnPropertyNames ps <-> is_Some (lookup_prop (KString s) ps).
Proof.
  induction ps as [|[[s'|n] p] ps IH]; cbn.
  - split; [intros H; by apply elem_of_nil in H | intros [? [=]]].
  - destruct (String.eqb s' s) eqn:E.
    + apply String.eqb_eq in E. subst. split; [eauto | intros _; left].
    + apply String.eqb_neq in E. rewrite elem_of_cons, IH.
      split; [intros [->|H]; [congruence | exact H] | intros H; right; exact H].
  - exact IH.
Qed.

Section copy_loop.

Variable h : list object.
Variable get : string -> value.

Let step (o : object) (key : string) : object :=
  assign (h ++ [o]) key (get key) o.

Lemma step_props_proto (o : object) : o_props (step o "__proto__") = o_props o.
Proof. reflexivity. Qed.

Lemma step_props (o : object) (key : string) :
  key <> "__proto__" ->
  o_props (step o key) = define_prop (KString key) (get key) (o_props o).
Proof.
  intros Hne. unfold step, assign.
  apply String.eqb_neq in Hne. by rewrite Hne.
Qed.

Lemma step_class (o : object) (key : string) :
  key <> "__proto__" -> o_class (step o key) = o_class o.
Proof.
  intros Hne. unfold step, assign.
  apply String.eqb_neq in Hne. by rewrite Hne.
Qed.

Lemma step_sets (o : object) (key s : string) :
  s <> "__proto__" ->
  s = key \/
    lookup_prop (KString s) (o_props o) =
      Some {| p_value := get s; p_enumerable := true |} ->
  lookup_prop (KString s) (o_props (step o key)) =
    Some {| p_value := get s; p_enumerable := true |}.
Proof.
  intros Hs H. destruct (String.eqb key "__proto__") eqn:Hk.
  - apply String.eqb_eq in Hk. subst key. rewrite step_props_proto.
    destruct H as [->|H]; [contradiction | exact H].
  - apply String.eqb_neq in Hk. rewrite step_props by exact Hk.
    destruct (decide (s = key)) as [->|Hne].
    + apply lookup_define_eq.
    + rewrite lookup_define_ne by congruence.
      destruct H as [->|H]; [contradiction | exact H].
Qed.

Lemma loop_sets (names : list string) (acc : object) (s : string) :
  s <> "__proto__" ->
  s ∈ names \/
    lookup_prop (KString s) (o_props acc) =
      Some {| p_value := get s; p_enumerable := true |} ->
  lookup_prop (KString s) (o_props (fold_left step names acc)) =
    Some {| p_value := get s; p_enumerable := true |}.
Proof.
  intros Hs. revert acc. induction names as [|key names IH]; intros acc H; cbn.
  - destruct H as [H|H]; [by apply elem_of_nil in H | exact H].
  - apply IH. destruct H as [H|H].
    + apply elem_of_cons in H as [->|H]; [|by left].
      right. apply step_sets; auto.
    + right. apply step_sets; auto.
Qed.

Lemma loop_only (names : list string) (acc : object) (k : prop_key) (p' : property) :
  lookup_prop k (o_props (fold_left step names acc)) = Some p' ->
  lookup_prop k (o_props acc) = Some p' \/
  exists s, k = KString s /\ s ∈ names /\ s <> "__proto__" /\
            p' = {| p_value := get s; p_enumerable := true |}.
Proof.
  revert acc. induction names as [|key names IH]; intros acc H; cbn in H.
  - by left.
  - destruct (IH _ H) as [Hstep|(s & -> & Hin & Hs & ->)].
    + destruct (String.eqb key "__proto__") eqn:Hk.
      * apply String.eqb_eq in Hk. subst key. left. exact Hstep.
      * apply String.eqb_neq in Hk. rewrite step_props in Hstep by exact Hk.
        destruct (decide (k = KString key)) as [->|Hne].
        -- rewrite lookup_define_eq in Hstep. injection Hstep as <-.
           right. exists key. repeat split; [left | exact Hk].
        -- rewrite lookup_define_ne in Hstep by congruence. by left.
    + right. exists s. repeat split; [by right | exact Hs].
Qed.

Lemma loop_class (names : list string) (acc : object) :
  "__proto__" ∉ names -> o_class (fold_left step names acc) = o_class acc.
Proof.
  revert acc. induction names as [|key names IH]; intros acc H; cbn.
  - reflexivity.
  - apply not_elem_of_cons in H as [Hne Hout].
    rewrite IH by exact Hout. apply step_class. congruence.
Qed.

End copy_loop.

(** Allocation leaves what a reference into the heap shows. *)
Lemma own_props_app (h ext : list object) (v : value) :
  points_into h v -> own_props (h ++ ext) v = own_props h v.
Proof.
  destruct v; cbn; try reflexivity. intros Hlt. by rewrite lookup_app_l.
Qed.

Lemma instanceof_Error_app (h ext : list object) (v : value) :
  points_into h v -> instanceof_Error (h ++ ext) v = instanceof_Error h v.
Proof.
  destruct v; cbn; try reflexivity. intros Hlt.
  unfold instanceof_Error, class_of. by rewrite lookup_app_l.
Qed.

Lemma get_prop_app (h ext : list object) (v : value) (key : string) :
  points_into h v -> get_prop (h ++ ext) v key = get_prop h v key.
Proof. intros Hv. unfold get_prop. by rewrite own_props_app. Qed.

Lemma instanceof_Error_points (h : list object) (v : value) :
  instanceof_Error h v = true -> points_into h v.
Proof.
  destruct v; cbn; try discriminate. unfold instanceof_Error, class_of.
  destruct (h !! a) eqn:Hl; cbn; [|discriminate].
  intros _. by eapply lookup_lt_Some.
Qed.

Lemma points_into_app (h ext : list object) (v : value) :
  points_into h v -> points_into (h ++ ext) v.
Proof. destruct v; cbn; auto. rewrite length_app. lia. Qed.

(** The loop of [prepareArg], run on the heap with the literal on top. *)
Lemma copy_loop_run (h0 : list object) (arg : value) (names : list string)
    (acc : object) (w : world) :
  points_into h0 arg ->
  e_heap (w_env w) = h0 ++ [acc] ->
  forEach names (fun key =>
      do e' <- environment;
      set_prop (length h0) key (get_prop (e_heap e') arg key)) w =
    (Ok tt,
     {| w_this := w_this w;
        w_env :=
          with_heap
            (h0 ++ [fold_left
                      (fun o key => assign (h0 ++ [o]) key (get_prop h0 arg key) o)
                      names acc])
            (w_env w) |}).
Proof.
  intros Harg. revert acc w.
  induction names as [|key names IH]; intros acc w Hheap; cbn [forEach fold_left].
  - destruct w as [c []]. cbn in *. by subst.
  - unfold bind at 1. unfold bind at 1. cbn [environment set_prop set_env].
    rewrite Hheap, alter_last, get_prop_app by exact Harg.
    erewrite IH by reflexivity. destruct w as [c []]. reflexivity.
Qed.

Lemma prepareArg_error (arg : value) (w : world) :
  instanceof_Error (e_heap (w_env w)) arg = true ->
  prepareArg arg w =
    (Ok (VRef (length (e_heap (w_env w)))),
     {| w_this := w_this w;
        w_env := with_heap (e_heap (w_env w) ++ [copied (e_heap (w_env w)) arg])
                   (w_env w) |}).
Proof.
  intros Herr. pose proof (instanceof_Error_points _ _ Herr) as Harg.
  unfold prepareArg. unfold bind at 1. cbn [environment].
  rewrite Herr. unfold bind at 1. cbn [alloc_object bind environment set_env ret].
  unfold bind at 1. cbn [w_env with_heap e_heap].
  rewrite own_props_app by exact Harg.
  erewrite copy_loop_run; [| exact Harg | reflexivity].
  destruct w as [c []]. reflexivity.
Qed.

Lemma prepareArg_other (arg : value) (w : world) :
  instanceof_Error (e_heap (w_env w)) arg = false ->
  prepareArg arg w = (Ok arg, w).
Proof.
  intros Herr. unfold prepareArg. unfold bind at 1. cbn [environment].
  by rewrite Herr.
Qed.

Lemma get_prop_lookup (h : list object) (arg : value) (s : string) (p : property) :
  lookup_prop (KString s) (own_props h arg) = Some p ->
  get_prop h arg s = p_value p.
Proof. intros H. unfold get_prop. by rewrite H. Qed.

(** The object [prepareArg] allocates for an Error. *)
Lemma copied_spec (h h' : list object) (arg : value) :
  instanceof_Error h arg = true ->
  h' !! length h = Some (copied h arg) ->
  prepared_from h h' arg (VRef (length h)).
Proof.
  intros Herr Hl. split; [congruence|]. intros _.
  exists (length h), (copied h arg).
  split; [reflexivity|]. split; [lia|]. split; [exact Hl|].
  unfold copied. repeat split.
  - intros s p Hs Hp. rewrite <- (get_prop_lookup _ _ _ _ Hp).
    apply loop_sets; [exact Hs|]. left.
    apply getOwnPropertyNames_spec. by rewrite Hp.
  - intros k p' Hk.
    apply loop_only in Hk as [Hk|(s & -> & Hin & Hs & ->)]; [discriminate|].
    apply getOwnPropertyNames_spec in Hin as [p Hp].
    exists s, p. by rewrite (get_prop_lookup _ _ _ _ Hp).
  - intros Hnone. rewrite loop_class; [reflexivity|].
    intros Hin. apply getOwnPropertyNames_spec in Hin as [p Hp]. congruence.
Qed.

Lemma prepared_from_weaken (h ext h' : list object) (arg r : value) :
  points_into h arg ->
  prepared_from (h ++ ext) h' arg r -> prepared_from h h' arg r.
Proof.
  intros Harg. unfold prepared_from.
  rewrite instanceof_Error_app, own_props_app by exact Harg.
  intros [Hother Herr]. split; [exact Hother|].
  intros H. destruct (Herr H) as (a & o & -> & Hlen & Hl & Hrest).
  exists a, o. repeat split; try apply Hrest; try assumption.
  rewrite length_app in Hlen. lia.
Qed.

(** What [send] does on an open connection, given what [prepareArgs]
    answers. *)
Lemma send_open (eventName : string) (args prepared : list value) (h : sock)
    (w w' : world) :
  ws (w_this w) = Some h ->
  connection_open w = true ->
  prepareArgs args w = (Ok prepared, w') ->
  send eventName args w =
    (Ok tt,
     {| w_this := w_this w';
        w_env :=
          with_trace
            (e_trace (w_env w') ++
               [Debug (Sending_message eventName);
                WebSocket_send h (stringify (e_heap (w_env w')) eventName prepared)])
            (w_env w') |}).
Proof.
  intros Hws Hopen Hprep. unfold connection_open in Hopen. rewrite Hws in Hopen.
  unfold send. unfold bind at 1. cbn [this]. rewrite Hws.
  unfold bind at 1. unfold readyState at 1. unfold bind at 1.
  cbn [environment ret].
  destruct (s_readyState <$> e_sockets (w_env w) !! h) as [[]|]; try discriminate.
  unfold bind at 1. rewrite Hprep. destruct w' as [c []]. eval_M.
  by rewrite <- app_assoc.
Qed.


(** * Further properties, method by method *)

(** ** Connecting *)

Lemma connect_stored (fn : option callback) (h : sock) (w : world) :
  ws (w_this w) = Some h ->
  connect fn w = (Throw (Error "Already connected"), w).
Proof.
  open_world w. cbn [w_this ws]. intros ->. reflexivity.
Qed.

Lemma disconnect_keeps_sockets_length (w : world) :
  length (e_sockets (w_env (disconnect w).2)) = length (e_sockets (w_env w)).
Proof.
  statement_only. open_world w.
  destruct wsx as [h|], rt as [t|]; eval_M; rewrite ?length_alter; reflexivity.
Qed.

(** X1. [connect] succeeds exactly when no connection is stored. It then
    cancels the recorded retry timer, opens one socket to the configured
    URL with the protocol "mocha-remote-<id>", registers the close, error,
    message and open listeners on it, in that order, and stores it. It calls
    no function of the user and leaves the other fields of the client as
    they were. *)
Theorem connect_succeeds_iff_disconnected (fn : option callback) (w : world) :
  let c := config (w_this w) in
  let h := length (e_sockets (w_env w)) in
  let protocol := "mocha-remote-" +:+ id_text (id c) in
  let w' := (connect fn w).2 in
  ((connect fn w).1 = Ok tt <-> ws (w_this w) = None) /\
  (ws (w_this w) = None ->
     ws (w_this w') = Some h /\
     e_sockets (w_env w') =
       e_sockets (w_env w) ++
         [{| s_url := url c; s_protocol := protocol; s_readyState := CONNECTING;
             s_listeners :=
               [("close", onClose_fn); ("error", onError_fn);
                ("message", onMessage_fn); ("open", open_arrow fn)] |}] /\
     e_timers (w_env w') =
       match retryTimeout (w_this w) with
       | Some t => cancel t (e_timers (w_env w))
       | None => e_timers (w_env w)
       end /\
     added w w' =
       match retryTimeout (w_this w) with
       | Some t => [Called_clearTimeout t]
       | None => []
       end ++
       [Debug (Connecting_to (url c));
        WebSocket_new h (url c) protocol;
        WebSocket_addEventListener h "close" onClose_fn;
        WebSocket_addEventListener h "error" onError_fn;
        WebSocket_addEventListener h "message" onMessage_fn;
        WebSocket_addEventListener h "open" (open_arrow fn)] /\
     notifications (added w w') = [] /\
     config (w_this w') = c /\
     instrumentedMocha (w_this w') = instrumentedMocha (w_this w) /\
     retryTimeout (w_this w') = retryTimeout (w_this w)).
Proof.
  cbv zeta. split.
  - destruct (ws (w_this w)) as [h|] eqn:Hws.
    + rewrite (connect_stored fn h w Hws). split; discriminate.
    + rewrite (connect_fresh fn w Hws). split; reflexivity.
  - intros Hws. rewrite (connect_fresh fn w Hws). cbn [snd].
    open_world w. cbn [w_this w_env with_trace with_sockets with_timers ws
      config instrumentedMocha retryTimeout e_sockets e_timers e_trace
      e_next_timer].
    repeat split; try (unfold added; cbn [w_env e_trace with_trace];
                       rewrite drop_app_length);
      destruct rt; reflexivity.
Qed.

(** X2. How [connect] and [disconnect] compose, in every world: a second
    [connect] in a row throws "Already connected" and changes nothing,
    whether the first succeeded or threw; [connect] after [disconnect]
    succeeds and stores a socket that did not exist before; [disconnect]
    after [connect] leaves no connection stored, and never throws. *)
Theorem connect_and_disconnect_compose (fn fn' : option callback) (w : world) :
  connect fn' (connect fn w).2 =
    (Throw (Error "Already connected"), (connect fn w).2) /\
  (connect fn (disconnect w).2).1 = Ok tt /\
  ws (w_this (connect fn (disconnect w).2).2) =
    Some (length (e_sockets (w_env w))) /\
  (disconnect (connect fn w).2).1 = Ok tt /\
  ws (w_this (disconnect (connect fn w).2).2) = None.
Proof.
  statement_only.
  destruct (disconnect_forgets w) as (Hnone & _).
  repeat split.
  - destruct (ws (w_this w)) as [h|] eqn:Hws.
    + rewrite (connect_stored fn h w Hws). cbn [snd].
      exact (connect_stored fn' h w Hws).
    + rewrite (connect_fresh fn w Hws). cbn [snd].
      by apply (connect_stored fn' (length (e_sockets (w_env w)))).
  - by rewrite (connect_fresh fn _ Hnone).
  - rewrite (connect_fresh fn _ Hnone). cbn [snd w_this ws].
    by rewrite disconnect_keeps_sockets_length.
  - generalize (connect fn w).2. intros w1. open_world w1.
    destruct wsx, rt; reflexivity.
  - apply disconnect_forgets.
Qed.

(** A socket event runs the listeners of the socket, as they stand when
    the event is fired, on the world where the socket has changed state. *)
Lemma dispatch_lookup (h : sock) (ev : ws_event) (s : socket) (w : world) :
  e_sockets (w_env w) !! h = Some s ->
  dispatch h ev w =
    forEach (s_listeners s) (fun '(type, l) =>
      when (String.eqb type (event_type ev)) (uncaught (call_listener h l ev)))
      {| w_this := w_this w;
         w_env := with_sockets (alter (state_after ev) h (e_sockets (w_env w)))
                    (w_env w) |}.
Proof.
  intros Hs. unfold dispatch, bind at 1, update_socket, set_env.
  unfold bind at 1, environment.
  cbn [w_env with_sockets e_sockets]. cbv zeta.
  rewrite list_lookup_alter_eq, Hs. cbn [fmap option_fmap option_map].
  by destruct ev.
Qed.

(** X3. The open listener. When the socket that [connect(fn)] created
    opens, the client calls [onConnected], if configured, with that socket,
    and then [fn], if given, each once and in that order; nothing throws,
    the fields of the client stay as they were, and the connection is open
    for [send]. *)
Theorem open_event_calls_onConnected_then_fn (fn : option callback) (w : world) :
  ws (w_this w) = None ->
  let c := config (w_this w) in
  let h := length (e_sockets (w_env w)) in
  let w1 := (connect fn w).2 in
  let w2 := (dispatch h open_event w1).2 in
  (dispatch h open_event w1).1 = Ok tt /\
  added w1 w2 =
    [Debug (Connected_to (url c))] ++
    match onConnected c with
    | Some f => [Call_onConnected f h]
    | None => []
    end ++
    match fn with
    | Some g => [Call_connect_fn g]
    | None => []
    end /\
  w_this w2 = w_this w1 /\
  s_readyState <$> e_sockets (w_env w2) !! h = Some OPEN /\
  connection_open w2 = true /\
  e_timers (w_env w2) = e_timers (w_env w1).
Proof.
  intros Hws. cbv zeta. rewrite (connect_fresh fn w Hws). cbn [snd].
  erewrite dispatch_lookup
    by (cbn [w_env with_trace with_sockets e_sockets]; apply lookup_last).
  cbn [w_env w_this with_trace with_sockets e_sockets s_listeners].
  rewrite alter_last.
  cbn [forEach event_type String.eqb Ascii.eqb Bool.eqb when call_listener].
  revert Hws. open_world w. cbn [w_this ws]. intros ->.
  unfold connection_open.
  destruct rt as [t|], onC as [f|], fn as [g|]; eval_M;
    rewrite ?lookup_last; cbn;
    (repeat split; try reflexivity); trace_delta; reflexivity.
Qed.

(** ** Error events and malformed frames *)

Lemma only_logs_ret : only_logs (ret tt).
Proof.
  intros w. exists []. split; [|constructor].
  destruct w as [c []]. cbn. by rewrite app_nil_r.
Qed.

Lemma only_logs_bind (m k : M unit) :
  only_logs m -> only_logs k -> only_logs (m;; k).
Proof.
  intros Hm Hk w. destruct (Hm w) as (xs & Hxs & HP). unfold bind. rewrite Hxs.
  destruct (Hk {| w_this := w_this w;
                  w_env := with_trace (e_trace (w_env w) ++ xs) (w_env w) |})
    as (ys & Hys & HQ).
  rewrite Hys. exists (xs ++ ys). split; [|by apply Forall_app].
  destruct w as [c []]. cbn. by rewrite app_assoc.
Qed.

Lemma only_logs_forEach {A} (xs : list A) (f : A -> M unit) :
  (forall x, only_logs (f x)) -> only_logs (forEach xs f).
Proof.
  intros H. induction xs as [|x xs IH]; cbn [forEach];
    [apply only_logs_ret | by apply only_logs_bind].
Qed.

Lemma only_logs_onError (error : option string) : only_logs (onError error).
Proof.
  intros w. exists [Debug (WebSocket_error (error_text error))].
  split; [|by repeat constructor].
  destruct w as [c []]. reflexivity.
Qed.

Lemma only_logs_uncaught (m : M unit) : only_logs m -> only_logs (uncaught m).
Proof.
  intros Hm w. destruct (Hm w) as (xs & Hxs & HP).
  exists xs. unfold uncaught. by rewrite Hxs.
Qed.

Lemma error_event_state (h : sock) (error : option string) (socks : list socket) :
  alter (state_after (error_event error)) h socks = socks.
Proof. by apply list_alter_id. Qed.

(** X4. An error event only logs. On any socket, in any world, it throws
    nothing and changes neither the client nor a collaborator: no
    reconnect is scheduled, no connection is forgotten, no function of the
    user is called; the trace gains debug lines only. On a socket that
    carries [onError] it gains exactly one, with the message of the error,
    "No message" when the message is empty, and "No specific error" when
    the event has no error. *)
Theorem error_event_only_logs (h : sock) (error : option string) (w : world) :
  let w' := (dispatch h (error_event error) w).2 in
  (dispatch h (error_event error) w).1 = Ok tt /\
  w_this w' = w_this w /\
  collaborators (w_env w') = collaborators (w_env w) /\
  Forall is_debug (added w w') /\
  (forall s, e_sockets (w_env w) !! h = Some s ->
     NoDup (s_listeners s) -> ("error", onError_fn) ∈ s_listeners s ->
     added w w' = [Debug (WebSocket_error (error_text error))]).
Proof.
  cbv zeta.
  destruct (e_sockets (w_env w) !! h) as [s|] eqn:Hs.
  - rewrite (dispatch_lookup h _ s w Hs), error_event_state.
    assert (Hsame : {| w_this := w_this w;
                       w_env := with_sockets (e_sockets (w_env w)) (w_env w) |} = w)
      by (by destruct w as [c []]).
    rewrite Hsame.
    match goal with |- context [forEach ?xs ?f w] =>
      assert (Hlogs : only_logs (forEach xs f))
    end.
    { apply only_logs_forEach. intros [type l]. cbn [event_type].
      destruct (String.eqb type "error"); [|apply only_logs_ret].
      apply only_logs_uncaught.
      destruct l; try apply only_logs_ret. apply only_logs_onError. }
    destruct (Hlogs w) as (xs & Hxs & HP).
    repeat split.
    + by rewrite Hxs.
    + by rewrite Hxs.
    + rewrite Hxs. by destruct w as [c []].
    + rewrite Hxs. unfold added. cbn [snd w_env with_trace e_trace].
      by rewrite drop_app_length.
    + intros s0 [= <-] Hnd Hin.
      rewrite (forEach_once _ _ ("error", onError_fn) Hnd Hin).
      * destruct w as [c []]. cbn. by rewrite drop_app_length.
      * intros [type l] _ Hne w0. cbn [event_type].
        destruct (String.eqb type "error") eqn:Htype; [|reflexivity].
        apply String.eqb_eq in Htype. subst type.
        destruct l; try reflexivity. congruence.
  - assert (Hd : dispatch h (error_event error) w = (Ok tt, w)).
    { unfold dispatch, bind at 1, update_socket, set_env.
      unfold bind at 1, environment. cbn [w_env with_sockets e_sockets].
      cbv zeta. rewrite error_event_state, Hs. by destruct w as [c []]. }
    rewrite Hd. cbn [snd]. unfold added. rewrite drop_all.
    repeat split; try done.
Qed.

Lemma get_eventName_null (w : world) :
  exists msg, get_eventName JNull w = (Throw (TypeError msg), w).
Proof. eexists. reflexivity. Qed.

(** X5. A frame that cannot be used. When [JSON.parse] rejects the data of
    a message event, or decodes it to [null], [onMessage] throws (a
    SyntaxError, a TypeError) before it does anything. The exception leaves
    the listener uncaught: the client and its collaborators stay as they
    were, the connection included, and no run is dispatched. *)
Theorem unusable_frame_changes_nothing (event_data : string) (w : world) :
  JSON_parse event_data = None \/ JSON_parse event_data = Some JNull ->
  (exists x,
     onMessage event_data w = (Throw x, w) /\
     match JSON_parse event_data with
     | None => exists msg, x = SyntaxError msg
     | Some _ => exists msg, x = TypeError msg
     end /\
     forall h s,
       e_sockets (w_env w) !! h = Some s ->
       NoDup (s_listeners s) -> ("message", onMessage_fn) ∈ s_listeners s ->
       let w' := (dispatch h (message_event event_data) w).2 in
       (dispatch h (message_event event_data) w).1 = Ok tt /\
       w_this w' = w_this w /\
       collaborators (w_env w') = collaborators (w_env w) /\
       added w w' = [Uncaught x] /\
       ~ run_dispatched w w').
Proof.
  intros Hparse.
  assert (Hthrow : exists x,
    onMessage event_data w = (Throw x, w) /\
    match JSON_parse event_data with
    | None => exists msg, x = SyntaxError msg
    | Some _ => exists msg, x = TypeError msg
    end).
  { unfold onMessage. destruct Hparse as [-> | ->].
    - eexists. split; [reflexivity|]. eauto.
    - eexists. split; [reflexivity|]. eauto. }
  destruct Hthrow as (x & Hx & Hkind). exists x.
  split; [exact Hx|]. split; [exact Hkind|].
  intros h s Hs Hnd Hin. cbv zeta.
  rewrite (dispatch_lookup h _ s w Hs).
  assert (Hsame : alter (state_after (message_event event_data)) h
                    (e_sockets (w_env w)) = e_sockets (w_env w))
    by (by apply list_alter_id).
  rewrite Hsame.
  assert (Hw : {| w_this := w_this w;
                  w_env := with_sockets (e_sockets (w_env w)) (w_env w) |} = w)
    by (by destruct w as [c []]).
  rewrite Hw.
  rewrite (forEach_once _ _ ("message", onMessage_fn) Hnd Hin).
  - cbn [event_type String.eqb Ascii.eqb Bool.eqb when call_listener].
    unfold uncaught. rewrite Hx.
    assert (Hadded : added w (emit (Uncaught x) w).2 = [Uncaught x]).
    { destruct w as [c []]. cbn. by rewrite drop_app_length. }
    repeat split; try exact Hadded; try (by destruct w as [c []]).
    intros (m & Hm). rewrite Hadded in Hm.
    apply list_elem_of_singleton in Hm. discriminate.
  - intros [type l] _ Hne w0. cbn [event_type].
    destruct (String.eqb type "message") eqn:Htype; [|reflexivity].
    apply String.eqb_eq in Htype. subst type.
    destruct l; try reflexivity. congruence.
Qed.

(** ** The reporter and the instrumented instance *)

Lemma send_closed (eventName : string) (args : list value) (w : world) :
  connection_open w = false ->
  send eventName args w =
    (Throw (Error ("Cannot send " +:+ eventName +:+ " WebSocket is closed")), w).
Proof.
  open_world w. intros Hclosed. unfold connection_open in Hclosed.
  cbn in Hclosed. unfold send. cbn.
  destruct wsx as [h|]; [|reflexivity]. cbn.
  destruct (s_readyState <$> socks !! h) as [[]|]; try reflexivity.
  discriminate.
Qed.

(** How [prepareArgs] runs: it allocates one object per Error, after the
    objects that were there. *)
Lemma prepareArgs_run (args : list value) (w : world) :
  Forall (points_into (e_heap (w_env w))) args ->
  exists prepared ext,
    prepareArgs args w =
      (Ok prepared,
       {| w_this := w_this w;
          w_env := with_heap (e_heap (w_env w) ++ ext) (w_env w) |}) /\
    Forall2 (prepared_from (e_heap (w_env w)) (e_heap (w_env w) ++ ext))
      args prepared /\
    length ext = length (List.filter (instanceof_Error (e_heap (w_env w))) args).
Proof.
  statement_only. revert w.
  induction args as [|arg rest IH]; intros w Hargs.
  - exists [], []. split; [|split; [constructor|reflexivity]].
    destruct w as [c []]. cbn. by rewrite app_nil_r.
  - apply Forall_cons in Hargs as [Harg Hrest]. cbn [prepareArgs List.filter].
    set (h := e_heap (w_env w)) in *.
    destruct (instanceof_Error h arg) eqn:Herr.
    + unfold bind at 1. rewrite prepareArg_error by exact Herr. fold h.
      set (w1 := {| w_this := _; w_env := _ |}).
      assert (Hh1 : e_heap (w_env w1) = h ++ [copied h arg]).
      { subst w1. by destruct w as [c []]. }
      destruct (IH w1) as (prepared & ext & Heq & Hall & Hlen).
      { rewrite Hh1. eapply Forall_impl; [exact Hrest|].
        intros x. apply points_into_app. }
      unfold bind. rewrite Heq. rewrite Hh1 in Hall, Hlen.
      exists (VRef (length h) :: prepared), (copied h arg :: ext).
      split; [|split].
      * cbn [ret]. f_equal. subst w1 h. destruct w as [c []]. cbn.
        by rewrite <- app_assoc.
      * constructor.
        -- apply copied_spec; [exact Herr|]. apply list_lookup_middle. reflexivity.
        -- rewrite <- app_assoc in Hall. cbn [app] in Hall.
           clear -Hall Hrest.
           induction Hall; constructor.
           ++ apply Forall_cons in Hrest as [Hx _].
              eapply prepared_from_weaken; eassumption.
           ++ apply IHHall. by apply Forall_cons in Hrest as [_ ?].
      * cbn [length]. f_equal. rewrite Hlen. f_equal.
        apply List.filter_ext_in. intros x Hx.
        apply instanceof_Error_app.
        rewrite Forall_forall in Hrest. apply Hrest. by apply list_elem_of_In.
    + unfold bind at 1. rewrite prepareArg_other by exact Herr.
      destruct (IH w Hrest) as (prepared & ext & Heq & Hall & Hlen).
      unfold bind. rewrite Heq. exists (arg :: prepared), ext.
      split; [reflexivity|]. split; [|exact Hlen].
      constructor; [|exact Hall].
      split; [reflexivity | congruence].
Qed.

Lemma reporter_listeners_distinct : NoDup reporter_listeners.
Proof.
  apply NoDup_fmap_2; [by intros x y [= ->]|].
  apply (bool_decide_unpack _). vm_compute. reflexivity.
Qed.

(** What a runner carrying the reporter's listeners does with an event. *)
Lemma runner_emit_reporter (r : rref) (x : runner) (eventName : string)
    (args : list value) (w : world) :
  e_runners (w_env w) !! r = Some x ->
  r_listeners x = reporter_listeners ->
  runner_emit r eventName args w =
    if bool_decide (eventName ∈ MOCHA_EVENT_NAMES)
    then send eventName args w
    else (Ok tt, w).
Proof.
  intros Hr Hls. unfold runner_emit, bind at 1. cbn [environment].
  rewrite Hr, Hls. destruct (bool_decide_reflect (eventName ∈ MOCHA_EVENT_NAMES))
    as [Hin|Hout].
  - rewrite (forEach_once _ _ (eventName, eventName) reporter_listeners_distinct).
    + by rewrite String.eqb_refl.
    + unfold reporter_listeners.
      by apply (list_elem_of_fmap_2 (fun name => (name, name))).
    + intros [name bound] Hy Hne w0.
      apply list_elem_of_fmap in Hy as (n & [= -> ->] & _).
      destruct (String.eqb n eventName) eqn:Hn; [|reflexivity].
      apply String.eqb_eq in Hn. congruence.
  - apply forEach_noop. intros [name bound] Hy w0.
    apply list_elem_of_fmap in Hy as (n & [= -> ->] & Hn).
    destruct (String.eqb n eventName) eqn:E; [|reflexivity].
    apply String.eqb_eq in E. congruence.
Qed.



(** X8. [run] on an instance that was never instrumented. Its
    [originalRun] is undefined, so calling it throws a TypeError; by then
    the reporter of the instance has been replaced, and that stays. The
    framework's run is not executed, no runner is created, [onRunning] is
    not called, and the client is as it was. *)
Theorem run_without_instrument_throws (m : mref) (o : mocha) (w : world) :
  e_mochas (w_env w) !! m = Some o ->
  m_originalRun o = None ->
  let w' := (run m w).2 in
  (exists msg, (run m w).1 = Throw (TypeError msg)) /\
  e_mochas (w_env w') !! m = Some (with__reporter remote_reporter o) /\
  e_runners (w_env w') = e_runners (w_env w) /\
  added w w' = [Set_reporter m remote_reporter] /\
  w_this w' = w_this w.
Proof.
  statement_only. open_world w.
  cbn [w_env w_this e_mochas e_runners e_trace]. intros Hm Horig. cbv zeta.
  unfold run. eval_M.
  erewrite call_originalRun_lookup
    by (cbn [w_env e_mochas]; rewrite list_lookup_alter_eq, Hm; reflexivity).
  cbn [with__reporter m_originalRun]. rewrite Horig. cbn [fst snd w_env w_this
    e_mochas e_runners e_trace].
  rewrite list_lookup_alter_eq, Hm.
  repeat split; [eauto|]. trace_delta. reflexivity.
Qed.

(** X9. [instrument] on an instance. It returns the instance, stores it
    as the one [getMocha] hands out, and calls [onInstrumented], if
    configured, once with it, touching no other instance. Afterwards
    [reporter(...)] called on the instance only warns: it returns the
    instance and changes nothing, the reporter in use included. *)
Theorem instrument_stores_notifies_and_silences_reporter
    (m : mref) (o : mocha) (w : world) :
  e_mochas (w_env w) !! m = Some o ->
  let w1 := (instrument m w).2 in
  (instrument m w).1 = Ok m /\
  instrumentedMocha (w_this w1) = Some m /\
  getMocha w1 = (Ok m, w1) /\
  added w w1 =
    match onInstrumented (config (w_this w)) with
    | Some f => [Call_onInstrumented f m]
    | None => []
    end /\
  e_mochas (w_env w1) !! m =
    Some {| m_run := instrumented_run; m_originalRun := Some (m_run o);
            m_reporter := instrumented_reporter; m__reporter := m__reporter o |} /\
  (forall m', m' <> m -> e_mochas (w_env w1) !! m' = e_mochas (w_env w) !! m') /\
  direct_reporter m w1 =
    (Ok m, {| w_this := w_this w1;
              w_env := with_trace (e_trace (w_env w1) ++ [console_warn reporter_warning])
                         (w_env w1) |}).
Proof.
  statement_only. intros Hm. cbv zeta. rewrite instrument_eq. cbn [fst snd].
  open_world w. cbn [w_env w_this e_mochas e_trace config onInstrumented
    instrumentedMocha with_trace with_mochas] in *.
  assert (Hl : alter instrumented m ms !! m = Some (instrumented o))
    by (by rewrite list_lookup_alter_eq, Hm).
  split; [reflexivity|]. split; [reflexivity|]. split; [reflexivity|].
  split; [|split; [|split]].
  - unfold added. cbn [w_env e_trace with_trace]. by rewrite drop_app_length.
  - exact Hl.
  - intros m' Hne. by rewrite list_lookup_alter_ne.
  - unfold direct_reporter, bind, environment.
    cbn [w_env e_mochas with_trace with_mochas].
    rewrite Hl. reflexivity.
Qed.

(** ** The life of a client, as a whole *)

(** X10. At most one retry is pending. In every world a client can be
    in, at most one timer is pending, a pending timer is the one recorded
    in [retryTimeout], and none is pending while a connection is stored. *)
Theorem at_most_one_retry_pending (w : world) :
  reachable w ->
  (length (e_timers (w_env w)) <= 1)%nat /\
  (forall x, x ∈ e_timers (w_env w) -> retryTimeout (w_this w) = Some (t_id x)) /\
  (forall h, ws (w_this w) = Some h -> e_timers (w_env w) = []).
Proof.
  intros Hreach. destruct (reachable_timers w Hreach) as (Hrec & Hlen & Hnone).
  auto.
Qed.

(** X11. Only the stored connection is listened to. In every world a
    client can be in, the stored connection is a socket that has not
    closed and carries [onClose]; any socket that carries [onClose] and has
    not closed is the stored one, so a connection the client has given up
    can neither schedule a retry nor report a disconnection; and no socket
    carries a listener twice. *)
Theorem only_the_stored_connection_listens (w : world) :
  reachable w ->
  (forall h, ws (w_this w) = Some h ->
     exists s, e_sockets (w_env w) !! h = Some s /\
               ("close", onClose_fn) ∈ s_listeners s /\
               s_readyState s <> CLOSED) /\
  (forall h s, e_sockets (w_env w) !! h = Some s ->
     ("close", onClose_fn) ∈ s_listeners s -> s_readyState s <> CLOSED ->
     ws (w_this w) = Some h) /\
  (forall h s, e_sockets (w_env w) !! h = Some s -> NoDup (s_listeners s)).
Proof.
  intros Hreach.
  destruct (reachable_invariant w Hreach)
    as (_ & Hstored & _ & Hdistinct & Hlistens).
  auto.
Qed.

(** X12. A retry that comes due reconnects. In every world a client can
    be in, a timer that comes due never finds a connection stored: the
    [connect] it calls does not throw, opens one socket to the configured
    URL and stores it, and no timer is pending afterwards. The open
    listener of that socket carries no callback: the one given to an
    earlier [connect] is not registered again. A timer that is not pending
    does nothing. *)
Theorem timer_due_reconnects (t : timer_id) (w : world) :
  reachable w ->
  let c := config (w_this w) in
  let h := length (e_sockets (w_env w)) in
  let protocol := "mocha-remote-" +:+ id_text (id c) in
  let w' := (fire t w).2 in
  (fire t w).1 = Ok tt /\
  ((forall x, x ∈ e_timers (w_env w) -> t_id x <> t) -> w' = w) /\
  (forall x, x ∈ e_timers (w_env w) -> t_id x = t ->
     ws (w_this w) = None /\
     ws (w_this w') = Some h /\
     e_timers (w_env w') = [] /\
     added w w' =
       [Called_clearTimeout t;
        Debug (Connecting_to (url c));
        WebSocket_new h (url c) protocol;
        WebSocket_addEventListener h "close" onClose_fn;
        WebSocket_addEventListener h "error" onError_fn;
        WebSocket_addEventListener h "message" onMessage_fn;
        WebSocket_addEventListener h "open" (open_arrow None)]).
Proof.
  intros Hreach.
  destruct (reachable_invariant w Hreach) as (Htimer & _ & Hretry & _).
  unfold one_recorded_timer, retry_only_disconnected in Htimer, Hretry.
  cbv zeta.
  assert (Hfire : fire t w =
    match List.find (fun x => Pos.eqb (t_id x) t) (e_timers (w_env w)) with
    | Some x =>
        uncaught (connect None)
          {| w_this := w_this w;
             w_env := with_timers (cancel t (e_timers (w_env w)))
                        (e_next_timer (w_env w)) (w_env w) |}
    | None => (Ok tt, w)
    end).
  { unfold fire, bind at 1. cbn [environment].
    destruct (List.find _ _) as [[? []]|]; reflexivity. }
  rewrite Hfire. clear Hfire.
  destruct (e_timers (w_env w)) as [|y [|z ts]] eqn:Ht; [| |contradiction].
  - cbn [List.find]. split; [reflexivity|]. split; [reflexivity|].
    intros x Hx. by apply elem_of_nil in Hx.
  - cbn [List.find]. specialize (Hretry ltac:(discriminate)).
    destruct (Pos.eqb (t_id y) t) eqn:E.
    + apply Pos.eqb_eq in E.
      unfold uncaught.
      rewrite connect_fresh by exact Hretry. cbn [fst snd].
      split; [reflexivity|]. split.
      { intros Hne. destruct (Hne y); [by left | exact E]. }
      intros x _ _. split; [exact Hretry|].
      revert Htimer Hretry Ht E. open_world w.
      cbn [w_this w_env retryTimeout ws e_timers e_sockets e_trace config
           with_trace with_sockets with_timers e_next_timer url id].
      intros -> -> -> <-. unfold cancel. cbn [List.filter].
      rewrite Pos.eqb_refl. cbn [negb].
      split; [reflexivity|]. split; [reflexivity|].
      unfold added. cbn [w_env e_trace with_trace].
      by rewrite drop_app_length.
    + split; [reflexivity|]. split; [reflexivity|].
      intros x Hx Hid. apply list_elem_of_singleton in Hx. subst x.
      rewrite Hid, Pos.eqb_refl in E. discriminate.
Qed.

Lemma keeps_config_ret {A} (a : A) : keeps_config (ret a).
Proof. intros w. reflexivity. Qed.

Lemma keeps_config_throw {A} (x : exn) : keeps_config (@throw A x).
Proof. intros w. reflexivity. Qed.

Lemma keeps_config_bind {A B} (m : M A) (k : A -> M B) :
  keeps_config m -> (forall a, keeps_config (k a)) -> keeps_config (bind m k).
Proof.
  intros Hm Hk w. unfold bind. specialize (Hm w).
  destruct (m w) as [[a|x] w1]; cbn in *; [|assumption].
  by rewrite Hk.
Qed.

Lemma keeps_config_this : keeps_config this.
Proof. intros w. reflexivity. Qed.

Lemma keeps_config_environment : keeps_config environment.
Proof. intros w. reflexivity. Qed.

Lemma keeps_config_set_env f : keeps_config (set_env f).
Proof. intros w. reflexivity. Qed.

Lemma keeps_config_set_ws x : keeps_config (set_ws x).
Proof. intros w. reflexivity. Qed.

Lemma keeps_config_set_instrumentedMocha x :
  keeps_config (set_instrumentedMocha x).
Proof. intros w. reflexivity. Qed.

Lemma keeps_config_set_retryTimeout x : keeps_config (set_retryTimeout x).
Proof. intros w. reflexivity. Qed.

Lemma keeps_config_when b m : keeps_config m -> keeps_config (when b m).
Proof. destruct b; cbn; auto using keeps_config_ret. Qed.

Lemma keeps_config_notify f ev : keeps_config (notify f ev).
Proof. destruct f; cbn; intros w; reflexivity. Qed.

Lemma keeps_config_forEach {A} (xs : list A) (f : A -> M unit) :
  (forall x, keeps_config (f x)) -> keeps_config (forEach xs f).
Proof.
  intros H. induction xs; cbn; auto using keeps_config_ret, keeps_config_bind.
Qed.

Lemma keeps_config_uncaught m : keeps_config m -> keeps_config (uncaught m).
Proof.
  intros Hm w. unfold uncaught. specialize (Hm w).
  destruct (m w) as [[a|x] w1]; cbn in *; assumption.
Qed.

Create HintDb cfg discriminated.
#[local] Hint Resolve keeps_config_ret keeps_config_throw keeps_config_this
  keeps_config_environment keeps_config_set_env keeps_config_set_ws
  keeps_config_set_instrumentedMocha keeps_config_set_retryTimeout
  keeps_config_when keeps_config_notify keeps_config_forEach
  keeps_config_uncaught : cfg.
#[local] Hint Extern 2 (keeps_config (bind _ _)) =>
  apply keeps_config_bind; [|intros] : cfg.
#[local] Hint Extern 3 (keeps_config (match ?x with _ => _ end)) =>
  destruct x : cfg.
#[local] Hint Extern 3 (keeps_config (let '(_, _) := ?x in _)) =>
  destruct x : cfg.

Ltac solve_cfg :=
  repeat progress unfold debug, emit, new_WebSocket, addEventListener,
    removeEventListener, ws_close, ws_send, readyState, update_socket,
    setTimeout, clearTimeout, alloc_mocha, call_createMocha, update_mocha,
    runner_addListener, alloc_object, set_prop;
  auto 30 with cfg.

Lemma connect_keeps_config fn : keeps_config (connect fn).
Proof. unfold connect. solve_cfg. Qed.

Lemma disconnect_keeps_config : keeps_config disconnect.
Proof. unfold disconnect. solve_cfg. Qed.

Lemma instrument_keeps_config m : keeps_config (instrument m).
Proof. unfold instrument. solve_cfg. Qed.

Lemma run_keeps_config m : keeps_config (run m).
Proof.
  unfold run, call_originalRun, call_run_entry, Mocha_run_original,
    construct_reporter. solve_cfg.
Qed.

Lemma getMocha_keeps_config : keeps_config getMocha.
Proof. pose proof instrument_keeps_config. unfold getMocha. solve_cfg. Qed.

Lemma prepareArgs_keeps_config args : keeps_config (prepareArgs args).
Proof. induction args; cbn; [solve_cfg|]. unfold prepareArg. solve_cfg. Qed.

Lemma send_keeps_config eventName args : keeps_config (send eventName args).
Proof. pose proof prepareArgs_keeps_config. unfold send. solve_cfg. Qed.

Lemma runner_emit_keeps_config r eventName args :
  keeps_config (runner_emit r eventName args).
Proof. pose proof send_keeps_config. unfold runner_emit. solve_cfg. Qed.

Lemma onClose_keeps_config code reason : keeps_config (onClose code reason).
Proof. unfold onClose. solve_cfg. Qed.

Lemma onError_keeps_config error : keeps_config (onError error).
Proof. unfold onError. solve_cfg. Qed.

Lemma onMessage_keeps_config data : keeps_config (onMessage data).
Proof.
  pose proof getMocha_keeps_config. pose proof run_keeps_config.
  unfold onMessage, get_eventName. solve_cfg.
Qed.

Lemma on_open_keeps_config fn h : keeps_config (on_open fn h).
Proof. unfold on_open. solve_cfg. Qed.

Lemma dispatch_keeps_config h ev : keeps_config (dispatch h ev).
Proof.
  pose proof onClose_keeps_config. pose proof onError_keeps_config.
  pose proof onMessage_keeps_config. pose proof on_open_keeps_config.
  assert (forall l, keeps_config (call_listener h l ev))
    by (intros l; destruct l, ev; cbn; auto with cfg).
  unfold dispatch. solve_cfg.
Qed.

Lemma fire_keeps_config t : keeps_config (fire t).
Proof. pose proof connect_keeps_config. unfold fire. solve_cfg. Qed.

Lemma constructor_config cfg e c e' :
  constructor cfg e = (Ok c, e') -> config c = spread DEFAULT_CONFIG cfg.
Proof.
  unfold constructor.
  set (w0 := {| w_this := _; w_env := e |}).
  destruct (negb (e_WebSocket_defined e)); [discriminate|].
  destruct (autoConnect (config (w_this w0))).
  - pose proof (connect_keeps_config None w0) as Hc.
    destruct (connect None w0) as [[[]|x] [c1 e1]]; [|discriminate].
    intros [= <- <-]. exact Hc.
  - by intros [= <- <-].
Qed.

(** X13. The configuration is fixed at construction. The client is
    constructed with the argument spread over the defaults, and nothing
    that happens to it afterwards, a call of a method, an event on a
    socket, a timer, an event of a runner, changes [this.config]. *)
Theorem configuration_is_fixed :
  (forall cfg e c e',
     constructor cfg e = (Ok c, e') -> config c = spread DEFAULT_CONFIG cfg) /\
  (forall a w, config (w_this (perform a w)) = config (w_this w)) /\
  (forall w, reachable w ->
     exists cfg, config (w_this w) = spread DEFAULT_CONFIG cfg).
Proof.
  assert (Hstep : forall a w, config (w_this (perform a w)) = config (w_this w)).
  { intros [fn| |m|m| |h ev|t|r eventName args] w; cbn [perform].
    - apply connect_keeps_config.
    - apply disconnect_keeps_config.
    - apply instrument_keeps_config.
    - apply run_keeps_config.
    - apply getMocha_keeps_config.
    - apply dispatch_keeps_config.
    - apply fire_keeps_config.
    - apply runner_emit_keeps_config. }
  split; [exact constructor_config|]. split; [exact Hstep|].
  induction 1 as [cfg e c e' Hs Ht Hnew|a w Hreach [cfg IH] Hen].
  - exists cfg. by eapply constructor_config.
  - exists cfg. by rewrite Hstep.
Qed.

(** X14. The shim and the codec leave the connection alone. Instrumenting
    an instance, running one, obtaining one, preparing arguments, sending an
    event, handling a frame, a run request included, and an event of a
    runner never change the stored connection, the recorded retry timer,
    the sockets and their listeners, or the pending timers. *)
Theorem shim_and_codec_leave_the_connection_alone (w : world) :
  (forall m, connection_state (instrument m w).2 = connection_state w) /\
  (forall m, connection_state (run m w).2 = connection_state w) /\
  connection_state (getMocha w).2 = connection_state w /\
  (forall args, connection_state (prepareArgs args w).2 = connection_state w) /\
  (forall eventName args,
     connection_state (send eventName args w).2 = connection_state w) /\
  (forall event_data,
     connection_state (onMessage event_data w).2 = connection_state w) /\
  (forall r eventName args,
     connection_state (runner_emit r eventName args w).2 = connection_state w).
Proof.
  repeat split; intros.
  - apply instrument_keeps_connection.
  - apply run_keeps_connection.
  - apply getMocha_keeps_connection.
  - apply prepareArgs_keeps_connection.
  - apply send_keeps_connection.
  - apply onMessage_keeps_connection.
  - apply runner_emit_keeps_connection.
Qed.

Lemma keeps_retries_ret {A} (a : A) : keeps_retries (ret a).
Proof. intros w H. exact H. Qed.

Lemma keeps_retries_throw {A} (x : exn) : keeps_retries (@throw A x).
Proof. intros w H. exact H. Qed.

Lemma keeps_retries_bind {A B} (m : M A) (k : A -> M B) :
  keeps_retries m -> (forall a, keeps_retries (k a)) -> keeps_retries (bind m k).
Proof.
  intros Hm Hk w Hw. unfold bind. specialize (Hm w Hw).
  destruct (m w) as [[a|x] w1]; cbn in *; [|assumption].
  by apply Hk.
Qed.

Lemma keeps_retries_this : keeps_retries this.
Proof. intros w H. exact H. Qed.

Lemma keeps_retries_environment : keeps_retries environment.
Proof. intros w H. exact H. Qed.

Lemma keeps_retries_set_env f :
  (forall e, e_timers (f e) = e_timers e) -> keeps_retries (set_env f).
Proof.
  intros Hf w H x Hx. cbn in Hx. rewrite Hf in Hx. exact (H x Hx).
Qed.

Lemma keeps_retries_set_this f :
  (forall c, config (f c) = config c) -> keeps_retries (set_this f).
Proof.
  intros Hf w H x Hx. cbn in *. rewrite Hf. exact (H x Hx).
Qed.

Lemma keeps_retries_clearTimeout t : keeps_retries (clearTimeout t).
Proof.
  intros w H x Hx. cbn in Hx. unfold cancel in Hx.
  apply list_elem_of_In, List.filter_In in Hx as [Hx _].
  apply H. by apply list_elem_of_In.
Qed.

Lemma keeps_retries_when b m : keeps_retries m -> keeps_retries (when b m).
Proof. destruct b; cbn; auto using keeps_retries_ret. Qed.

Lemma keeps_retries_notify f ev : keeps_retries (notify f ev).
Proof. destruct f; cbn; intros w H; exact H. Qed.

Lemma keeps_retries_forEach {A} (xs : list A) (f : A -> M unit) :
  (forall x, keeps_retries (f x)) -> keeps_retries (forEach xs f).
Proof.
  intros H. induction xs; cbn; auto using keeps_retries_ret, keeps_retries_bind.
Qed.

Lemma keeps_retries_uncaught m : keeps_retries m -> keeps_retries (uncaught m).
Proof.
  intros Hm w Hw. unfold uncaught. specialize (Hm w Hw).
  destruct (m w) as [[a|x] w1]; cbn in *; assumption.
Qed.

Create HintDb retries discriminated.
#[local] Hint Resolve keeps_retries_ret keeps_retries_throw keeps_retries_this
  keeps_retries_environment keeps_retries_clearTimeout keeps_retries_when
  keeps_retries_notify keeps_retries_forEach keeps_retries_uncaught : retries.
#[local] Hint Extern 2 (keeps_retries (bind _ _)) =>
  apply keeps_retries_bind; [|intros] : retries.
#[local] Hint Extern 2 (keeps_retries (set_env _)) =>
  apply keeps_retries_set_env; intros []; reflexivity : retries.
#[local] Hint Extern 2 (keeps_retries (set_this _)) =>
  apply keeps_retries_set_this; intros []; reflexivity : retries.
#[local] Hint Extern 3 (keeps_retries (match ?x with _ => _ end)) =>
  destruct x : retries.
#[local] Hint Extern 3 (keeps_retries (let '(_, _) := ?x in _)) =>
  destruct x : retries.

Ltac solve_retries :=
  repeat progress unfold debug, emit, new_WebSocket, addEventListener,
    removeEventListener, ws_close, ws_send, readyState, update_socket,
    alloc_mocha, call_createMocha, update_mocha,
    runner_addListener, alloc_object, set_prop, set_ws, set_instrumentedMocha,
    set_retryTimeout;
  auto 30 with retries.

Lemma connect_keeps_retries fn : keeps_retries (connect fn).
Proof. unfold connect. solve_retries. Qed.

Lemma disconnect_keeps_retries : keeps_retries disconnect.
Proof. unfold disconnect. solve_retries. Qed.

Lemma instrument_keeps_retries m : keeps_retries (instrument m).
Proof. unfold instrument. solve_retries. Qed.

Lemma run_keeps_retries m : keeps_retries (run m).
Proof.
  unfold run, call_originalRun, call_run_entry, Mocha_run_original,
    construct_reporter. solve_retries.
Qed.

Lemma getMocha_keeps_retries : keeps_retries getMocha.
Proof. pose proof instrument_keeps_retries. unfold getMocha. solve_retries. Qed.

Lemma prepareArgs_keeps_retries args : keeps_retries (prepareArgs args).
Proof.
  induction args; cbn; [solve_retries|]. unfold prepareArg. solve_retries.
Qed.

Lemma send_keeps_retries eventName args : keeps_retries (send eventName args).
Proof. pose proof prepareArgs_keeps_retries. unfold send. solve_retries. Qed.

Lemma runner_emit_keeps_retries r eventName args :
  keeps_retries (runner_emit r eventName args).
Proof. pose proof send_keeps_retries. unfold runner_emit. solve_retries. Qed.

(** [onClose] sets a timer only when [autoRetry] is on, for [retryDelay]. *)
Lemma onClose_keeps_retries code reason : keeps_retries (onClose code reason).
Proof.
  intros w. open_world w. unfold retries_as_configured.
  destruct (code =? 1000) eqn:Hcode, ar, onD; eval_M; rewrite ?Hcode; cbn;
    intros H x Hx; try (exact (H x Hx)).
  all: apply elem_of_app in Hx as [Hx|Hx]; [exact (H x Hx)|].
  all: apply list_elem_of_singleton in Hx; subst x; split; reflexivity.
Qed.

Lemma onError_keeps_retries error : keeps_retries (onError error).
Proof. unfold onError. solve_retries. Qed.

Lemma onMessage_keeps_retries data : keeps_retries (onMessage data).
Proof.
  pose proof getMocha_keeps_retries. pose proof run_keeps_retries.
  unfold onMessage, get_eventName. solve_retries.
Qed.

Lemma on_open_keeps_retries fn h : keeps_retries (on_open fn h).
Proof. unfold on_open. solve_retries. Qed.

Lemma dispatch_keeps_retries h ev : keeps_retries (dispatch h ev).
Proof.
  pose proof onClose_keeps_retries. pose proof onError_keeps_retries.
  pose proof onMessage_keeps_retries. pose proof on_open_keeps_retries.
  assert (forall l, keeps_retries (call_listener h l ev))
    by (intros l; destruct l, ev; cbn; auto with retries).
  unfold dispatch. solve_retries.
Qed.

Lemma fire_keeps_retries t : keeps_retries (fire t).
Proof.
  pose proof connect_keeps_retries.
  assert (keeps_retries
            (set_env (fun e => with_timers (cancel t (e_timers e))
                                 (e_next_timer e) e))).
  { intros w Hw x Hx. cbn in Hx. unfold cancel in Hx.
    apply list_elem_of_In, List.filter_In in Hx as [Hx _].
    apply Hw. by apply list_elem_of_In. }
  unfold fire. auto 30 with retries.
Qed.

Lemma reachable_retries (w : world) : reachable w -> retries_as_configured w.
Proof.
  induction 1 as [cfg e c e' Hs Ht Hnew|a w Hreach IH Hen].
  - revert Hnew. unfold constructor.
    set (w0 := {| w_this := _; w_env := e |}).
    assert (H0 : retries_as_configured w0).
    { intros x Hx. cbn in Hx. rewrite Ht in Hx. by apply elem_of_nil in Hx. }
    destruct (negb (e_WebSocket_defined e)); [discriminate|].
    destruct (autoConnect (config (w_this w0))).
    + pose proof (connect_keeps_retries None w0 H0) as Hc.
      destruct (connect None w0) as [[[]|x] [c1 e1]]; [|discriminate].
      by intros [= <- <-].
    + by intros [= <- <-].
  - destruct a as [fn| |m|m| |h ev|t|r eventName args]; cbn [perform].
    + by apply connect_keeps_retries.
    + by apply disconnect_keeps_retries.
    + by apply instrument_keeps_retries.
    + by apply run_keeps_retries.
    + by apply getMocha_keeps_retries.
    + by apply dispatch_keeps_retries.
    + by apply fire_keeps_retries.
    + by apply runner_emit_keeps_retries.
Qed.

(** X15. A pending retry is as configured. In every world a client can
    be in, a pending timer reconnects, after the [retryDelay] of the
    configuration, and [autoRetry] is on. So a client constructed with
    [autoRetry] off never has a timer pending, and a timer coming due does
    nothing to it: it connects only when [connect] is called. *)
Theorem pending_retry_is_as_configured (w : world) :
  reachable w ->
  (forall x, x ∈ e_timers (w_env w) ->
     autoRetry (config (w_this w)) = true /\
     t_delay x = retryDelay (config (w_this w)) /\
     t_fn x = reconnect_arrow) /\
  (autoRetry (config (w_this w)) = false ->
     e_timers (w_env w) = [] /\ forall t, fire t w = (Ok tt, w)).
Proof.
  intros Hreach. pose proof (reachable_retries w Hreach) as Hcfg. split.
  - intros x Hx. destruct (Hcfg x Hx) as [Har Hd].
    repeat split; [exact Har | exact Hd | by destruct (t_fn x)].
  - intros Hoff.
    assert (Hnone : e_timers (w_env w) = []).
    { destruct (e_timers (w_env w)) as [|x ts] eqn:Ht; [reflexivity|].
      destruct (Hcfg x) as [Har _]; [rewrite Ht; by left | congruence]. }
    split; [exact Hnone|].
    intros t. unfold fire, bind at 1. cbn [environment]. by rewrite Hnone.
Qed.

(** ** Preparing arguments, as a whole *)

Lemma prepareArgs_plain (args : list value) (w : world) :
  Forall (fun arg => instanceof_Error (e_heap (w_env w)) arg = false) args ->
  prepareArgs args w = (Ok args, w).
Proof.
  statement_only.
  induction 1 as [|arg rest Harg _ IH]; [reflexivity|].
  cbn [prepareArgs]. unfold bind at 1. rewrite prepareArg_other by exact Harg.
  unfold bind. by rewrite IH.
Qed.

(** X16. Arguments without an Error pass through. When no argument is an
    Error, the empty list included, [prepareArgs] hands the list back as it
    is and changes nothing, the heap included; on an open connection [send]
    then transmits the envelope of the event name and the arguments
    themselves. *)
Theorem prepareArgs_without_Error_is_identity (args : list value) (w : world) :
  Forall (fun arg => instanceof_Error (e_heap (w_env w)) arg = false) args ->
  prepareArgs args w = (Ok args, w) /\
  forall eventName h, ws (w_this w) = Some h -> connection_open w = true ->
    send eventName args w =
      (Ok tt,
       {| w_this := w_this w;
          w_env := with_trace
                     (e_trace (w_env w) ++
                        [Debug (Sending_message eventName);
                         WebSocket_send h
                           (stringify (e_heap (w_env w)) eventName args)])
                     (w_env w) |}).
Proof.
  intros Hargs. pose proof (prepareArgs_plain args w Hargs) as Hprep.
  split; [exact Hprep|].
  intros eventName h Hws Hopen.
  exact (send_open eventName args args h w w Hws Hopen Hprep).
Qed.


(** X18. A lost connection is reported once. In every world a client
    can be in, when the transport closes the stored connection the client
    calls [onDisconnected], if configured, exactly once, with the code and
    the reason, and no other function of the user; nothing throws; the
    socket is closed and forgotten, so [send] throws until a new connection
    has opened; the stored instance is kept. *)
Theorem lost_connection_is_reported_once
    (code : Z) (reason : string) (h : sock) (w : world) :
  reachable w -> ws (w_this w) = Some h ->
  let w' := (dispatch h (close_event code reason) w).2 in
  (dispatch h (close_event code reason) w).1 = Ok tt /\
  notifications (added w w') =
    match onDisconnected (config (w_this w)) with
    | Some f => [Call_onDisconnected f code reason]
    | None => []
    end /\
  List.filter is_uncaught (added w w') = [] /\
  s_readyState <$> e_sockets (w_env w') !! h = Some CLOSED /\
  ws (w_this w') = None /\
  (forall eventName args,
     send eventName args w' =
       (Throw (Error ("Cannot send " +:+ eventName +:+ " WebSocket is closed")),
        w')) /\
  instrumentedMocha (w_this w') = instrumentedMocha (w_this w).
Proof.
  intros Hreach Hws.
  destruct (reachable_connected w h Hreach Hws)
    as (s & Hs & Hdistinct & Hin & Hopen & Hnone).
  cbv zeta. rewrite (dispatch_close_listening h s) by assumption.
  cbn [fst snd]. split; [reflexivity|].
  match goal with |- context [onClose code reason ?w1] =>
    destruct (onClose_schedules code reason w1) as (Hforgot & _)
  end.
  split; [|split; [|split; [|split; [exact Hforgot|split]]]].
  - clear Hforgot. open_world w.
    destruct (code =? 1000) eqn:Hcode, ar, onD; eval_M; rewrite ?Hcode; cbn;
      trace_delta; reflexivity.
  - clear Hforgot. open_world w.
    destruct (code =? 1000) eqn:Hcode, ar, onD; eval_M; rewrite ?Hcode; cbn;
      trace_delta; reflexivity.
  - clear Hforgot. revert Hs. open_world w. cbn [w_env e_sockets]. intros Hs.
    destruct (code =? 1000) eqn:Hcode, ar, onD; eval_M; rewrite ?Hcode; cbn;
      rewrite list_lookup_alter_eq, Hs; reflexivity.
  - intros eventName args. apply send_closed.
    unfold connection_open. by rewrite Hforgot.
  - clear Hforgot. open_world w.
    destruct (code =? 1000) eqn:Hcode, ar, onD; eval_M; rewrite ?Hcode; cbn;
      reflexivity.
Qed.

(** ** What goes out on a socket *)

#[local] Hint Extern 1 (not_send _) => reflexivity : emits.
#[local] Hint Extern 1 (not_close _) => reflexivity : emits.

Lemma connect_sends_nothing fn : emits not_send (connect fn).
Proof. unfold connect. solve_emits. Qed.

Lemma disconnect_sends_nothing : emits not_send disconnect.
Proof. unfold disconnect. solve_emits. Qed.

Lemma instrument_sends_nothing m : emits not_send (instrument m).
Proof. unfold instrument. solve_emits. Qed.

Lemma run_sends_nothing m : emits not_send (run m).
Proof.
  unfold run, call_originalRun, call_run_entry, Mocha_run_original,
    construct_reporter. solve_emits.
Qed.

Lemma getMocha_sends_nothing : emits not_send getMocha.
Proof. pose proof instrument_sends_nothing. unfold getMocha. solve_emits. Qed.

Lemma onClose_sends_nothing code reason : emits not_send (onClose code reason).
Proof. unfold onClose. solve_emits. Qed.

Lemma onError_sends_nothing error : emits not_send (onError error).
Proof. unfold onError. solve_emits. Qed.

Lemma onMessage_sends_nothing data : emits not_send (onMessage data).
Proof.
  pose proof getMocha_sends_nothing. pose proof run_sends_nothing.
  unfold onMessage, get_eventName. solve_emits.
Qed.

Lemma on_open_sends_nothing fn h : emits not_send (on_open fn h).
Proof. unfold on_open. solve_emits. Qed.

Lemma dispatch_sends_nothing h ev : emits not_send (dispatch h ev).
Proof.
  pose proof onClose_sends_nothing. pose proof onError_sends_nothing.
  pose proof onMessage_sends_nothing. pose proof on_open_sends_nothing.
  assert (forall l, emits not_send (call_listener h l ev))
    by (intros l; destruct l, ev; cbn; auto with emits).
  unfold dispatch. solve_emits.
Qed.

Lemma fire_sends_nothing t : emits not_send (fire t).
Proof. pose proof connect_sends_nothing. unfold fire. solve_emits. Qed.

Lemma connect_closes_nothing fn : emits not_close (connect fn).
Proof. unfold connect. solve_emits. Qed.

Lemma instrument_closes_nothing m : emits not_close (instrument m).
Proof. unfold instrument. solve_emits. Qed.

Lemma run_closes_nothing m : emits not_close (run m).
Proof.
  unfold run, call_originalRun, call_run_entry, Mocha_run_original,
    construct_reporter. solve_emits.
Qed.

Lemma getMocha_closes_nothing : emits not_close getMocha.
Proof. pose proof instrument_closes_nothing. unfold getMocha. solve_emits. Qed.

Lemma prepareArgs_closes_nothing args : emits not_close (prepareArgs args).
Proof. induction args; cbn; [solve_emits|]. unfold prepareArg. solve_emits. Qed.

Lemma send_closes_nothing eventName args : emits not_close (send eventName args).
Proof. pose proof prepareArgs_closes_nothing. unfold send. solve_emits. Qed.

Lemma runner_emit_closes_nothing r eventName args :
  emits not_close (runner_emit r eventName args).
Proof. pose proof send_closes_nothing. unfold runner_emit. solve_emits. Qed.

Lemma onClose_closes_nothing code reason : emits not_close (onClose code reason).
Proof. unfold onClose. solve_emits. Qed.

Lemma onError_closes_nothing error : emits not_close (onError error).
Proof. unfold onError. solve_emits. Qed.

Lemma onMessage_closes_nothing data : emits not_close (onMessage data).
Proof.
  pose proof getMocha_closes_nothing. pose proof run_closes_nothing.
  unfold onMessage, get_eventName. solve_emits.
Qed.

Lemma on_open_closes_nothing fn h : emits not_close (on_open fn h).
Proof. unfold on_open. solve_emits. Qed.

Lemma dispatch_closes_nothing h ev : emits not_close (dispatch h ev).
Proof.
  pose proof onClose_closes_nothing. pose proof onError_closes_nothing.
  pose proof onMessage_closes_nothing. pose proof on_open_closes_nothing.
  assert (forall l, emits not_close (call_listener h l ev))
    by (intros l; destruct l, ev; cbn; auto with emits).
  unfold dispatch. solve_emits.
Qed.

Lemma fire_closes_nothing t : emits not_close (fire t).
Proof. pose proof connect_closes_nothing. unfold fire. solve_emits. Qed.


End MochaRemoteClient.

(** * The properties at work, on concrete worlds *)

(** The client of [connected_world] is one that was just constructed. *)
Lemma connected_world_reachable :
  reachable (parse_as eventName_run_frame) stringify_name connected_world.
Proof.
  apply (reachable_constructed _ _ no_options empty_env
           (w_this connected_world) (w_env connected_world));
    reflexivity.
Qed.

(** C1 at work: the connection of [connected_world] is lost with code 1006,
    then again closed with code 1000. *)
Lemma onClose_reconnect_policy_witness :
  e_timers (w_env (dispatch (parse_as eventName_run_frame) 0%nat
                     (close_event 1006 "lost") connected_world).2) =
    [{| t_id := 1%positive; t_fn := reconnect_arrow; t_delay := 500 |}] /\
  e_timers (w_env (dispatch (parse_as eventName_run_frame) 0%nat
                     (close_event 1000 "bye") connected_world).2) = [].
Proof.
  split.
  - destruct (onClose_reconnect_policy (parse_as eventName_run_frame)
                stringify_name 1006 "lost" connected_world)
      as (_ & _ & _ & _ & Hclosed).
    destruct (Hclosed connected_world_reachable 0%nat eq_refl)
      as (_ & _ & Hretry & _).
    apply Hretry; [discriminate | reflexivity].
  - destruct (onClose_reconnect_policy (parse_as eventName_run_frame)
                stringify_name 1000 "bye" connected_world)
      as (_ & _ & _ & _ & Hclosed).
    destruct (Hclosed connected_world_reachable 0%nat eq_refl)
      as (_ & _ & _ & Hquiet).
    apply Hquiet. left. reflexivity.
Defined.

(** C2 at work: a second [connect], and a [send] before the socket is open. *)
Lemma misuse_witness :
  connect None connected_world =
    (Throw (Error "Already connected"), connected_world) /\
  send stringify_name "start" [] connected_world =
    (Throw (Error "Cannot send start WebSocket is closed"), connected_world).
Proof.
  split.
  - apply (proj1 (misuse_throws_and_changes_nothing stringify_name connected_world)
             None 0%nat).
    reflexivity.
  - apply (proj2 (misuse_throws_and_changes_nothing stringify_name connected_world)
             "start" []).
    reflexivity.
Defined.

(** C3 at work: disconnecting while a retry is pending cancels it. *)
Lemma disconnect_idempotent_witness :
  e_timers
    (w_env (disconnect
              (retrying_world (parse_as eventName_run_frame) stringify_name)).2)
    = [].
Proof.
  destruct (disconnect_idempotent (parse_as eventName_run_frame) stringify_name
              (retrying_world (parse_as eventName_run_frame) stringify_name))
    as (_ & _ & _ & _ & _ & _ & _ & _ & _ & Hcancelled & _).
  apply Hcancelled. unfold retrying_world. constructor.
  - exact connected_world_reachable.
  - vm_compute. discriminate.
Defined.




(** C6 at work: the instance of [mocha_world], instrumented twice. *)
Lemma reinstrument_witness :
  (run 0%nat (instrument 0%nat (instrument 0%nat mocha_world).2).2).1 =
    Throw (Error guard_message).
Proof.
  apply (reinstrument_loses_original_run 0%nat fresh_mocha mocha_world
           eq_refl eq_refl).
Defined.


(** C8, as stated, fails both ways: the envelope [{ type: "run" }]
    dispatches no run, and a frame that is not that envelope,
    [{ eventName: "run" }], dispatches one. *)
Lemma type_run_envelope_dispatches_nothing :
  (is_type_run_envelope type_run_frame /\
   ~ run_dispatched idle_world
       (onMessage (parse_as type_run_frame) "frame" idle_world).2) /\
  (~ is_type_run_envelope eventName_run_frame /\
   run_dispatched idle_world
     (onMessage (parse_as eventName_run_frame) "frame" idle_world).2).
Proof.
  repeat split.
  - exists [("type", JString "run")]. split; reflexivity.
  - intros (m & Hin). vm_compute in Hin.
    apply list_elem_of_singleton in Hin. discriminate.
  - intros (ms & [= <-] & Hm). discriminate.
  - exists 0%nat. vm_compute. do 2 right. left.
Qed.

(** C8 at work, on the frame [{ eventName: "run" }]. *)
Lemma run_dispatched_witness :
  run_dispatched idle_world
    (onMessage (parse_as eventName_run_frame) "frame" idle_world).2.
Proof.
  apply (proj1 (run_dispatched_iff_eventName_run (parse_as eventName_run_frame)
                  "frame" eventName_run_frame idle_world eq_refl)).
  exists [("eventName", JString "run")]. split; reflexivity.
Defined.

(** C9 at work: construction with no options, where WebSocket is defined. *)
Lemma constructor_witness :
  exists e',
    constructor no_options empty_env =
      (Ok {| config := DEFAULT_CONFIG; ws := Some 0%nat;
             instrumentedMocha := None; retryTimeout := None |}, e') /\
    e_sockets e' =
      [{| s_url := "ws://localhost:8090"; s_protocol := "mocha-remote-default";
          s_readyState := CONNECTING;
          s_listeners :=
            [("close", onClose_fn); ("error", onError_fn);
             ("message", onMessage_fn); ("open", open_arrow None)] |}].
Proof.
  destruct (proj1 (proj2 (constructor_connects_by_default no_options empty_env))
              eq_refl eq_refl) as (e' & Heq & Hsockets & _).
  exists e'. split; [exact Heq | exact Hsockets].
Defined.

(** C10 at work: the close event that follows a deliberate disconnect. *)
Lemma deliberate_disconnect_witness :
  e_trace (w_env (dispatch (parse_as eventName_run_frame) 0%nat
                    (close_event 1005 "done") (disconnect connected_world).2).2) =
  e_trace (w_env (disconnect connected_world).2).
Proof.
  apply (proj1 (proj2 (proj2
           (deliberate_disconnect_is_silent (parse_as eventName_run_frame)
              stringify_name connected_world)))
           0%nat 1005 "done" eq_refl).
Defined.

(** ** The further properties at work *)

(** The client of [retrying_world] lost its connection after it was
    constructed. *)
Lemma retrying_world_reachable :
  reachable (parse_as eventName_run_frame) stringify_name
    (retrying_world (parse_as eventName_run_frame) stringify_name).
Proof.
  unfold retrying_world. constructor.
  - exact connected_world_reachable.
  - vm_compute. discriminate.
Qed.

(** X1 at work: [connect()] on the client that has not connected. *)
Lemma connect_succeeds_witness :
  ws (w_this (connect None idle_world).2) = Some 0%nat /\
  notifications (added idle_world (connect None idle_world).2) = [].
Proof.
  destruct (proj2 (connect_succeeds_iff_disconnected None idle_world) eq_refl)
    as (Hws & _ & _ & _ & Hquiet & _).
  split; [exact Hws | exact Hquiet].
Defined.

(** X3 at work: the callback of [connect(resolve)] is called when the
    socket opens, as the integration test of the client awaits. *)
Lemma open_event_witness :
  added (connect (Some (UserFn 0)) idle_world).2
    (dispatch (parse_as eventName_run_frame) 0%nat open_event
       (connect (Some (UserFn 0)) idle_world).2).2 =
  [Debug (Connected_to "ws://localhost:8090"); Call_connect_fn (UserFn 0)].
Proof.
  apply (open_event_calls_onConnected_then_fn (parse_as eventName_run_frame)
           (Some (UserFn 0)) idle_world eq_refl).
Defined.

(** X4 at work: an error event without an error, on the connection of
    [connected_world]. *)
Lemma error_event_witness :
  added connected_world
    (dispatch (parse_as eventName_run_frame) 0%nat (error_event None)
       connected_world).2 =
  [Debug (WebSocket_error "No specific error")].
Proof.
  destruct (error_event_only_logs (parse_as eventName_run_frame) 0%nat None
              connected_world) as (_ & _ & _ & _ & Hline).
  apply (Hline _ eq_refl).
  - apply (bool_decide_unpack _). vm_compute. reflexivity.
  - apply (bool_decide_unpack _). vm_compute. reflexivity.
Defined.

(** X5 at work: a frame that [JSON.parse] rejects. *)
Lemma unusable_frame_witness :
  exists x, onMessage (fun _ => None) "{" connected_world =
            (Throw x, connected_world).
Proof.
  destruct (unusable_frame_changes_nothing (fun _ => None) "{" connected_world)
    as (x & Hx & _).
  { left. reflexivity. }
  exists x. exact Hx.
Defined.

(** The instance of [mocha_world], instrumented once and run. *)
Lemma running_world_runner :
  e_runners (w_env (run 0%nat (instrument 0%nat mocha_world).2).2) !! 0%nat =
    Some {| r_mocha := 0%nat; r_listeners := reporter_listeners |}.
Proof. reflexivity. Qed.



(** X8 at work: [run] on the instance of [mocha_world], not instrumented. *)
Lemma run_without_instrument_witness :
  exists msg, (run 0%nat mocha_world).1 = Throw (TypeError msg).
Proof.
  apply (run_without_instrument_throws 0%nat fresh_mocha mocha_world
           eq_refl eq_refl).
Defined.

(** X9 at work: [reporter(...)] on the instance of [mocha_world] after
    [instrument]. *)
Lemma instrument_silences_reporter_witness :
  added (instrument 0%nat mocha_world).2
    (direct_reporter 0%nat (instrument 0%nat mocha_world).2).2 =
  [console_warn reporter_warning].
Proof.
  destruct (instrument_stores_notifies_and_silences_reporter 0%nat fresh_mocha
              mocha_world eq_refl) as (_ & _ & _ & _ & _ & _ & Hwarn).
  rewrite Hwarn. reflexivity.
Defined.

(** X10 at work: one retry is pending after the connection was lost. *)
Lemma at_most_one_retry_witness :
  (length (e_timers (w_env (retrying_world (parse_as eventName_run_frame)
                              stringify_name))) <= 1)%nat.
Proof.
  apply (at_most_one_retry_pending (parse_as eventName_run_frame) stringify_name
           _ retrying_world_reachable).
Defined.

(** X11 at work: the connection of [connected_world] is listened to. *)
Lemma only_stored_listens_witness :
  exists s,
    e_sockets (w_env connected_world) !! 0%nat = Some s /\
    ("close", onClose_fn) ∈ s_listeners s.
Proof.
  destruct (only_the_stored_connection_listens (parse_as eventName_run_frame)
              stringify_name _ connected_world_reachable) as (Hstored & _).
  destruct (Hstored 0%nat eq_refl) as (s & Hs & Hin & _).
  exists s. split; [exact Hs | exact Hin].
Defined.

(** X12 at work: the retry of [retrying_world] comes due. *)
Lemma timer_due_witness :
  ws (w_this (fire 1%positive
                (retrying_world (parse_as eventName_run_frame) stringify_name)).2)
    = Some 1%nat.
Proof.
  destruct (timer_due_reconnects (parse_as eventName_run_frame) stringify_name
              1%positive _ retrying_world_reachable) as (_ & _ & Hdue).
  destruct (Hdue {| t_id := 1%positive; t_fn := reconnect_arrow; t_delay := 500 |})
    as (_ & Hws & _).
  - vm_compute. left.
  - reflexivity.
  - exact Hws.
Defined.

(** X13 at work: the configuration after the connection was lost. *)
Lemma configuration_witness :
  exists cfg,
    config (w_this (retrying_world (parse_as eventName_run_frame) stringify_name))
      = spread DEFAULT_CONFIG cfg.
Proof.
  apply (proj2 (proj2 (configuration_is_fixed (parse_as eventName_run_frame)
                         stringify_name))).
  exact retrying_world_reachable.
Defined.

(** X15 at work: the retry of [retrying_world] is set for 500 ms. *)
Lemma pending_retry_witness :
  Forall (fun x => t_delay x = 500)
    (e_timers (w_env (retrying_world (parse_as eventName_run_frame)
                        stringify_name))).
Proof.
  apply Forall_forall. intros x Hx.
  destruct (pending_retry_is_as_configured (parse_as eventName_run_frame)
              stringify_name _ retrying_world_reachable) as (Hcfg & _).
  destruct (Hcfg x Hx) as (_ & Hdelay & _). exact Hdelay.
Defined.

(** X16 at work: a number and a string. *)
Lemma prepareArgs_identity_witness :
  prepareArgs [VNumber 1; VString "x"] error_world =
    (Ok [VNumber 1; VString "x"], error_world).
Proof.
  apply (prepareArgs_without_Error_is_identity stringify_name
           [VNumber 1; VString "x"] error_world).
  repeat constructor.
Defined.


(** X18 at work: the connection of [connected_world] is lost. *)
Lemma lost_connection_witness :
  ws (w_this (dispatch (parse_as eventName_run_frame) 0%nat
                (close_event 1006 "lost") connected_world).2) = None.
Proof.
  destruct (lost_connection_is_reported_once (parse_as eventName_run_frame)
              stringify_name 1006 "lost" 0%nat connected_world
              connected_world_reachable eq_refl)
    as (_ & _ & _ & _ & Hws & _).
  exact Hws.
Defined.

